(** * Verification of the context-worker Rust profile, the analyzer app,
      the web concept validator and the MCP server wrapper

    The development is a shallow embedding of three TypeScript sources:
    - [packages/context-worker/src/code-context/rust/RustProfile.ts]
      (the Rust language profile and the [InterfaceAnalyzerApp]),
    - [packages/web/src/lib/ai-validator.ts] ([validateConcepts]),
    - [packages/context-mcp/src/server.ts] ([MCPServerImpl]).

    JavaScript strings are modelled by [string] (the only string
    operations used are concatenation and suffix tests against ASCII
    literals), object identity by natural-number references, thrown
    values by the type [Exn], asynchronous functions by their sequential
    meaning (every promise is awaited where it is created unless noted). *)

From stdpp Require Import base option list gmap strings sorting.
From Stdlib Require Import ZArith Lia.

Set Warnings "-register-all".

Local Open Scope Z_scope.
Local Open Scope nat_scope.

(** ** JavaScript values and string primitives *)

Module Js.

(** Values that [JSON.parse] and [Response.json] can produce, plus
    [undefined] for absent properties.  Numbers are kept as integers:
    the sources only test them for truthiness. *)
Inductive Value : Type :=
| Undefined
| Null
| Bool (b : bool)
| Num (z : Z)
| Str (s : string)
| Arr (items : list Value)
| Obj (fields : list (string * Value)).

(** Thrown values. *)
Inductive Exn : Type :=
| Error (message : string)
| TypeError (message : string)
| SyntaxError (message : string)
| RangeError (message : string).

(** The completion of a call: a value or a thrown exception. *)
Inductive Completion (A : Type) : Type :=
| Normal (a : A)
| Throw (e : Exn).
Arguments Normal {A} a.
Arguments Throw {A} e.

(** [ToBoolean]. *)
Definition truthy (v : Value) : bool :=
  match v with
  | Undefined | Null => false
  | Bool b => b
  | Num z => negb (z =? 0)%Z
  | Str s => negb (String.eqb s EmptyString)
  | Arr _ | Obj _ => true
  end.

Fixpoint lookup_field (k : string) (fields : list (string * Value)) : Value :=
  match fields with
  | [] => Undefined
  | (k', v) :: rest => if String.eqb k k' then v else lookup_field k rest
  end.

(** Property read [v.k] for a data property name [k] that no prototype
    defines: it throws on [undefined] and [null], reads the own field of
    an object and is [undefined] on every other value. *)
Definition get_prop (v : Value) (k : string) : Completion Value :=
  match v with
  | Undefined => Throw (TypeError "Cannot read properties of undefined")
  | Null => Throw (TypeError "Cannot read properties of null")
  | Obj fields => Normal (lookup_field k fields)
  | _ => Normal Undefined
  end.

(** [a || b] on strings that may be undefined. *)
Definition or_default (a : option string) (b : string) : string :=
  match a with
  | Some s => if String.eqb s EmptyString then b else s
  | None => b
  end.

(** [s.endsWith(search)] with the default end position. *)
Definition endsWith (s search : string) : bool :=
  let len := String.length s in
  let searchLength := String.length search in
  if len <? searchLength then false
  else String.eqb (String.substring (len - searchLength) searchLength s) search.

(** [items.join(sep)] on an array of strings. *)
Fixpoint join (sep : string) (items : list string) : string :=
  match items with
  | [] => EmptyString
  | [x] => x
  | x :: rest => x +:+ sep +:+ join sep rest
  end.

End Js.

(** ** The pattern query cache of [../base/LanguageProfile] *)

Module LanguageProfile.

(** A grammar handle is opaque; only its identity is observable. *)
Definition Grammar : Type := nat.

(** A compiled query object: its reference is its identity. *)
Record CompiledQuery : Type := {
  cq_ref : nat;
  cq_pattern : string;
  cq_grammar : Grammar
}.

#[global] Instance CompiledQuery_eq_dec : EqDecision CompiledQuery.
Proof. solve_decision. Defined.

Inductive QueryCompilationError : Type :=
| MkQueryCompilationError (pattern : string) (grammar : Grammar).

(** The process-wide cache: the entries, and every compiled object that
    was ever created, oldest first. *)
Record Cache : Type := {
  entries : gmap (string * Grammar) CompiledQuery;
  allocated : list CompiledQuery
}.

Definition empty_cache : Cache := {| entries := ∅; allocated := [] |}.

Section WithGrammars.
(** Whether a pattern is well formed for a grammar is decided by the
    parser engine. *)
Variable well_formed : string -> Grammar -> bool.

(** Modelled from the spec: the body of the cache lookup
    [get(patternText, grammarHandle)] of [../base/LanguageProfile],
    which is not part of the sources at hand.  A hit returns the
    stored object unchanged; a miss compiles the pattern against the
    grammar, fails with a [QueryCompilationError] carrying the pattern
    text and the grammar when the pattern is malformed for it, and
    otherwise inserts the fresh object, insertion being the only
    mutation. *)
Definition get (patternText : string) (grammarHandle : Grammar) (c : Cache)
  : (QueryCompilationError + CompiledQuery) * Cache :=
  match entries c !! (patternText, grammarHandle) with
  | Some q => (inr q, c)
  | None =>
      if well_formed patternText grammarHandle then
        let q := {| cq_ref := length (allocated c);
                    cq_pattern := patternText;
                    cq_grammar := grammarHandle |} in
        (inr q, {| entries := <[(patternText, grammarHandle) := q]> (entries c);
                   allocated := allocated c ++ [q] |})
      else (inl (MkQueryCompilationError patternText grammarHandle), c)
  end.

(** A [MemoizedQuery] holds the text of its pattern. *)
Record MemoizedQuery : Type := { queryStr : string }.

(** [new MemoizedQuery(text)]: the constructor receives the pattern
    text only (see the field initialisers of [RustProfile]); no
    grammar is in reach, and the cache is not touched. *)
Definition new_MemoizedQuery (text : string) (c : Cache) : MemoizedQuery * Cache :=
  ({| queryStr := text |}, c).

(** Modelled from the spec: the evaluation request of a
    [MemoizedQuery] against a grammar, which goes through the cache. *)
Definition query (m : MemoizedQuery) (g : Grammar) (c : Cache)
  : (QueryCompilationError + CompiledQuery) * Cache :=
  get (queryStr m) g c.

(** A sequence of evaluation requests, each a pattern and a grammar. *)
Fixpoint requests (rs : list (string * Grammar)) (c : Cache) : Cache :=
  match rs with
  | [] => c
  | (p, g) :: rest => requests rest (snd (get p g c))
  end.

End WithGrammars.

Definition key_of (q : CompiledQuery) : string * Grammar :=
  (cq_pattern q, cq_grammar q).

(** The invariant of the cache: an entry is stored under its own
    pattern and grammar and was allocated at its reference, and every
    allocated object sits at its reference and is the entry of its key. *)
Definition cache_ok (c : Cache) : Prop :=
  (∀ k q, entries c !! k = Some q → key_of q = k ∧ allocated c !! cq_ref q = Some q)
  ∧ (∀ i q, allocated c !! i = Some q → cq_ref q = i ∧ entries c !! key_of q = Some q).

End LanguageProfile.

(** ** [RustProfile] *)

Module RustProfile.
Import LanguageProfile.

Definition languageIds : list string := ["rust"].
Definition fileExtensions : list string := ["rs"].

Definition isTestFile (filePath : string) : bool := Js.endsWith filePath "test.rs".

Definition hoverableQuery_text : string := "
     [(identifier)
         (shorthand_field_identifier)
         (field_identifier)
         (type_identifier)] @hoverable
  ".
Definition classQuery_text : string := "
		(struct_item (type_identifier) @type_identifier) @type_declaration
    ".
Definition methodQuery_text : string := "
			(function_item (identifier) @name.definition.method) @definition.method
    ".
Definition blockCommentQuery_text : string := "
		(block_comment) @docComment
	".
Definition methodIOQuery_text : string := "
		(function_item
      name: (identifier) @function.identifier
      return_type: (type_identifier)? @method-returnType
		) @function
	".
Definition structureQuery_text : string := "
		(use_declaration 
       argument: (scoped_use_list
			   path: (scoped_identifier) @use-path)
    )?

		(struct_item
			name: (type_identifier) @struct-name
			body: [
				(field_declaration_list
					(field_declaration
						name: (field_identifier) @struct-field-name
						type: (_) @struct-field-type)?
				)?
				(ordered_field_declaration_list)?
			]
		)

		(trait_item
			name: (type_identifier) @trait-name
			body: (declaration_list
				(function_signature_item
					name: (identifier) @trait-method-name
					parameters: (parameters) @trait-method-params
					return_type: (_)? @trait-method-return-type
				)?
			)?
		)

		(impl_item
			trait: (type_identifier)? @impl-trait-name
			type: (type_identifier) @impl-struct-name
			body: (declaration_list
				(function_item
					name: (identifier) @impl-method-name
					parameters: (parameters) @impl-method-params
					return_type: (_)? @impl-method-returnType
					body: (_) @impl-method-body
				)?
			)?
		)

		(function_item
			name: (identifier) @function-name
			parameters: (parameters) @function-params
			return_type: (_)? @function-returnType
			body: (_) @function-body
		)

		(parameter
			pattern: (identifier) @param-name
			type: (_) @param-type
		)
	".

Definition namespaces : list (list string) := [[
  (* variables *)
  "const";
  "function";
  "variable";
  (* types *)
  "struct";
  "enum";
  "union";
  "typedef";
  "interface";
  (* fields *)
  "field";
  "enumerator";
  (* namespacing *)
  "module";
  (* misc *)
  "label";
  "lifetime"
]].

Definition autoSelectInsideParent : list string := [].

Definition builtInTypes : list string := [
  "bool"; "i8"; "char"; "i16"; "i32"; "i64"; "f32"; "f64"; "()";
  "bool"; "i8"; "char"; "i16"; "i32"; "i64"; "f32"; "f64"; "String";
  "&[T]"; "Vec<T>"; "HashMap<K, V>"; "HashSet<T>"; "Vec<T>";
  "impl Iterator"; "impl Iterator"; "Option<T>"
].

(** The profile object.  [rust] is the text of the imported scope
    query [schemas/indexes/rust.scm]. *)
Record Profile : Type := {
  scopeQuery : MemoizedQuery;
  hoverableQuery : MemoizedQuery;
  classQuery : MemoizedQuery;
  methodQuery : MemoizedQuery;
  blockCommentQuery : MemoizedQuery;
  methodIOQuery : MemoizedQuery;
  structureQuery : MemoizedQuery
}.

(** The field initialisers of the class, in declaration order, threading
    the cache through the seven constructor calls. *)
Definition new_RustProfile (rust : string) (c0 : Cache) : Profile * Cache :=
  let '(q1, c1) := new_MemoizedQuery rust c0 in
  let '(q2, c2) := new_MemoizedQuery hoverableQuery_text c1 in
  let '(q3, c3) := new_MemoizedQuery classQuery_text c2 in
  let '(q4, c4) := new_MemoizedQuery methodQuery_text c3 in
  let '(q5, c5) := new_MemoizedQuery blockCommentQuery_text c4 in
  let '(q6, c6) := new_MemoizedQuery methodIOQuery_text c5 in
  let '(q7, c7) := new_MemoizedQuery structureQuery_text c6 in
  ({| scopeQuery := q1; hoverableQuery := q2; classQuery := q3;
      methodQuery := q4; blockCommentQuery := q5; methodIOQuery := q6;
      structureQuery := q7 |}, c7).

End RustProfile.

(** ** Effects: a trace of observable events and exceptions *)

Module Effects.
Import Js.

(** An argument of a console call, or a part of a template literal. *)
Inductive LogItem : Type :=
| LStr (s : string)
| LVal (v : Value)
| LExn (e : Exn).

Inductive Event : Type :=
| console_log (items : list LogItem)
| console_error (items : list LogItem)
(** [fs.writeFileSync(path, data)] returned: the file holds [data]. *)
| fs_writeFileSync (path data : string)
(** [fetch(url, {method: 'POST', headers: json, body})] was called. *)
| fetch_POST (url body : string)
(** the reply function of the web application was called. *)
| reply_user (content : string).

(** A computation: the events it performed, and how it completed. *)
Definition Prog (A : Type) : Type := list Event * Completion A.

Definition ret {A} (a : A) : Prog A := ([], Normal a).

Definition bind {A B} (m : Prog A) (k : A -> Prog B) : Prog B :=
  match m with
  | (t, Normal a) => let '(t', r) := k a in (t ++ t', r)
  | (t, Throw e) => (t, Throw e)
  end.

(** [try { body } catch (error) { handler }]. *)
Definition try_catch {A} (body : Prog A) (handler : Exn -> Prog A) : Prog A :=
  match body with
  | (t, Normal a) => (t, Normal a)
  | (t, Throw e) => let '(t', r) := handler e in (t ++ t', r)
  end.

Definition emit (e : Event) : Prog unit := ([e], Normal tt).

(** A call whose completion is given by the environment. *)
Definition call {A} (c : Completion A) : Prog A := ([], c).

Definition trace {A} (m : Prog A) : list Event := fst m.
Definition completion {A} (m : Prog A) : Completion A := snd m.

(** The computations use the monad notations of stdpp:
    [x ← m; k] and [m ;; k]. *)
#[global] Instance prog_ret : MRet Prog := @ret.
#[global] Instance prog_bind : MBind Prog := λ A B k m, bind m k.

End Effects.

(** ** [InterfaceAnalyzerApp] *)

Module InterfaceAnalyzerApp.
Import Js Effects.

(** The options of [AppConfig] that the application reads. *)
Record AppConfig : Type := {
  dirPath : string;
  outputJsonFile : option string;
  upload : bool;
  serverUrl : string
}.

(** What [fetch] resolves to: the status line and the completion of
    [response.json()]. *)
Record Response : Type := {
  status : Z;
  json : Completion Value
}.


Section WithCollaborators.
(** The analysis result and its flattened form are opaque here. *)
Variables CodeAnalysisResult TextResult : Type.

(** [process.cwd()], [path.join], and the two uses of
    [JSON.stringify]: indented by two, and compact. *)
Variable cwd : string.
Variable path_join : string -> string -> string.
Variable stringify_indented : forall A : Type, A -> string.
Variable stringify : forall A : Type, A -> string.

(** The methods of the [CodeAnalyzer] held by the application. *)
Variable initialize : Completion unit.
Variable updateConfig : AppConfig -> Completion unit.
Variable analyzeDirectory : AppConfig -> Completion CodeAnalysisResult.
Variable convertToList : CodeAnalysisResult -> Completion TextResult.
Variable generateLearningMaterials : CodeAnalysisResult -> Completion unit.

(** The file system and the network. *)
Variable writeFileSync_completes : string -> string -> Completion unit.
Variable fetch_completes : string -> string -> Completion Response.

Definition writeFileSync (path data : string) : Prog unit :=
  call (writeFileSync_completes path data) ;;
  emit (fs_writeFileSync path data).

Definition fetch (url body : string) : Prog Response :=
  emit (fetch_POST url body) ;;
  call (fetch_completes url body).

Definition uploadResult (result : CodeAnalysisResult) (config : AppConfig)
  : Prog unit :=
  try_catch
    (textResult ← call (convertToList result);
     let debugFilePath := path_join cwd "debug_analysis_result.json" in
     writeFileSync debugFilePath (stringify_indented _ textResult) ;;
     response ← fetch (serverUrl config) (stringify _ textResult);
     data ← call (json response);
     success ← call (get_prop data "success");
     if truthy success then
       emit (console_log [LStr "分析结果上传成功!"]) ;;
       id ← call (get_prop data "id");
       emit (console_log [LStr "ID: "; LVal id])
     else
       emit (console_error [LStr "上传失败:"; LVal data]))
    (fun error =>
       emit (console_error [LStr "上传过程中发生错误:"; LExn error])).

Definition outputFilePath (config : AppConfig) : string :=
  path_join cwd (or_default (outputJsonFile config) "analysis_result.json").

Definition run (config : AppConfig) : Prog unit :=
  call initialize ;;
  call (updateConfig config) ;;
  emit (console_log [LStr "正在扫描目录: "; LStr (dirPath config)]) ;;
  result ← call (analyzeDirectory config);
  writeFileSync (outputFilePath config) (stringify_indented _ result) ;;
  (if upload config then
     emit (console_log [LStr "正在上传分析结果到 "; LStr (serverUrl config)]) ;;
     uploadResult result config
   else mret tt) ;;
  emit (console_log [LStr "分析结果已保存到 "; LStr (outputFilePath config)]) ;;
  call (generateLearningMaterials result).




(** The body that [response.json()] hands to [uploadResult], when the
    steps before it complete; the status line is not consulted. *)
Definition response_body (result : CodeAnalysisResult) (config : AppConfig)
  : option Value :=
  match convertToList result with
  | Normal textResult =>
      match writeFileSync_completes (path_join cwd "debug_analysis_result.json")
              (stringify_indented _ textResult) with
      | Normal _ =>
          match fetch_completes (serverUrl config) (stringify _ textResult) with
          | Normal response =>
              match json response with
              | Normal data => Some data
              | Throw _ => None
              end
          | Throw _ => None
          end
      | Throw _ => None
      end
  | Throw _ => None
  end.

End WithCollaborators.

(** Whether [data.success] can be read and is truthy. *)
Definition body_reports_success (data : Value) : bool :=
  match get_prop data "success" with
  | Normal success => truthy success
  | Throw _ => false
  end.

End InterfaceAnalyzerApp.

(** ** [validateConcepts] of the web application *)

Module AiValidator.
Import Js Effects.

Record InvalidConcept : Type := { term : Value; reason : Value }.

(** The declared element type of [validConcepts] is [string], but the
    elements pushed are the [term] properties of the parsed answer,
    which are arbitrary values. *)
Record ConceptValidationResults : Type := {
  validConcepts : list Value;
  invalidConcepts : list InvalidConcept
}.

(** An element of the array returned by [MarkdownCodeBlock.from]. *)
Record CodeBlock : Type := { code : string }.

(** The double quote character and a text between double quotes. *)
Definition dquote : string := String (Ascii.ascii_of_nat 34) EmptyString.
Definition quoted (s : string) : string := dquote +:+ s +:+ dquote.

Definition prompt (extractedTerms : list string) (codeContext : string) : string :=
    "
You are an expert software developer analyzing code to identify domain-specific concepts.
Given the following code context and extracted terms, determine which terms are valid domain concepts and which are not.

CODE CONTEXT:
```
" +:+
    codeContext +:+
    "
```

EXTRACTED TERMS:
" +:+
    join ", " extractedTerms +:+
    "

For each term, determine if it's a valid domain concept or not. A valid domain concept is a term that:
1. Represents a meaningful entity, action, or concept in the business/application domain
2. Is not a generic programming term (like " +:+
    quoted "function" +:+
    ", " +:+
    quoted "class" +:+
    ", " +:+
    quoted "parameter" +:+
    ")
3. Is not a common English word without specific domain meaning
4. Is not a variable name that doesn't represent a domain concept
5. Is not a common programming term without specific domain meaning, like " +:+
    quoted "loop" +:+
    ", " +:+
    quoted "array" +:+
    ", " +:+
    quoted "controller" +:+
    ", " +:+
    quoted "service" +:+
    ", " +:+
    quoted "result" +:+
    ", etc.

Respond in the following JSON format:
{
  " +:+
    quoted "results" +:+
    ": [
    {" +:+
    quoted "term" +:+
    ": " +:+
    quoted "term1" +:+
    ", " +:+
    quoted "isValid" +:+
    ": true, " +:+
    quoted "reason" +:+
    ": " +:+
    quoted "Explanation why it's a valid concept" +:+
    "},
    {" +:+
    quoted "term" +:+
    ": " +:+
    quoted "term2" +:+
    ", " +:+
    quoted "isValid" +:+
    ": false, " +:+
    quoted "reason" +:+
    ": " +:+
    quoted "Explanation why it's not a valid concept" +:+
    "}
  ]
}
".

Section WithCollaborators.
(** The completion of the AI call for the content of the one user
    message, of [MarkdownCodeBlock.from] and of [JSON.parse]. *)
Variable reply_completes : string -> Completion string.
Variable MarkdownCodeBlock_from : string -> Completion (list CodeBlock).
Variable JSON_parse : string -> Completion Value.

Definition reply (content : string) : Prog string :=
  emit (reply_user content) ;;
  call (reply_completes content).

(** [blocks[0].code]. *)
Definition first_code (blocks : list CodeBlock) : Completion string :=
  match blocks with
  | b :: _ => Normal (code b)
  | [] => Throw (TypeError "Cannot read properties of undefined (reading 'code')")
  end.

(** The elements visited by [v.forEach(...)] for a value [v] that came
    out of [JSON.parse]: only arrays have the method. *)
Definition forEach_items (v : Value) : Completion (list Value) :=
  match v with
  | Arr items => Normal items
  | Undefined | Null =>
      Throw (TypeError "Cannot read properties of undefined (reading 'forEach')")
  | _ => Throw (TypeError "response.results.forEach is not a function")
  end.

(** One call of the arrow function passed to [forEach]. *)
Definition classify (acc : ConceptValidationResults) (result : Value)
  : Prog ConceptValidationResults :=
  isValid ← call (get_prop result "isValid");
  if truthy isValid then
    t ← call (get_prop result "term");
    mret {| validConcepts := validConcepts acc ++ [t];
            invalidConcepts := invalidConcepts acc |}
  else
    t ← call (get_prop result "term");
    r ← call (get_prop result "reason");
    mret {| validConcepts := validConcepts acc;
            invalidConcepts := invalidConcepts acc ++ [{| term := t; reason := r |}] |}.

Fixpoint forEach (items : list Value) (acc : ConceptValidationResults)
  : Prog ConceptValidationResults :=
  match items with
  | [] => mret acc
  | result :: rest => acc' ← classify acc result; forEach rest acc'
  end.

(** The body of the [try] block. *)
Definition attempt (extractedTerms : list string) (codeContext : string)
  : Prog ConceptValidationResults :=
  text ← reply (prompt extractedTerms codeContext);
  blocks ← call (MarkdownCodeBlock_from text);
  source ← call (first_code blocks);
  response ← call (JSON_parse source);
  results ← call (get_prop response "results");
  items ← call (forEach_items results);
  forEach items {| validConcepts := []; invalidConcepts := [] |}.

(** The value returned from the [catch] block. *)
Definition all_valid (extractedTerms : list string) : ConceptValidationResults :=
  {| validConcepts := Str <$> extractedTerms; invalidConcepts := [] |}.

Definition validateConcepts (extractedTerms : list string) (codeContext : string)
  : Prog ConceptValidationResults :=
  if (length extractedTerms =? 0)%nat then
    mret {| validConcepts := []; invalidConcepts := [] |}
  else
    try_catch (attempt extractedTerms codeContext)
      (fun error =>
         emit (console_error [LStr "Error validating concepts with AI:"; LExn error]) ;;
         mret (all_valid extractedTerms)).

(** The answer of the AI cannot be used: the call, the extraction of the
    first code block, or the parsing of its text throws. *)
Inductive answer_unusable (extractedTerms : list string) (codeContext : string)
  : Exn → Prop :=
| ai_call_throws e :
    reply_completes (prompt extractedTerms codeContext) = Throw e →
    answer_unusable extractedTerms codeContext e
| extraction_throws text e :
    reply_completes (prompt extractedTerms codeContext) = Normal text →
    MarkdownCodeBlock_from text = Throw e →
    answer_unusable extractedTerms codeContext e
| no_code_block text e :
    reply_completes (prompt extractedTerms codeContext) = Normal text →
    MarkdownCodeBlock_from text = Normal [] →
    first_code [] = Throw e →
    answer_unusable extractedTerms codeContext e
| parsing_throws text b blocks e :
    reply_completes (prompt extractedTerms codeContext) = Normal text →
    MarkdownCodeBlock_from text = Normal (b :: blocks) →
    JSON_parse (code b) = Throw e →
    answer_unusable extractedTerms codeContext e.

(** The AI is invoked when a [reply_user] event is in the trace. *)
Definition invokes_AI (t : list Event) : Prop := ∃ content, reply_user content ∈ t.

End WithCollaborators.

End AiValidator.

(** ** [MCPServerImpl] *)

Module MCPServer.
Import Js.

Record McpImplementation : Type := { name : string; version : string }.

Record HttpServeOptions : Type := { port : Z; hostname : option string }.

(** References to the objects created by the external libraries. *)
Definition Ref : Type := nat.

(** Calls into the MCP SDK, express and node's http server. *)
Inductive Event : Type :=
| McpServer_new (name version : string)
| McpServer_resource (name uri : string)
| McpServer_tool (name : string)
| McpServer_prompt (name : string)
| McpServer_connect (transport : Ref)
| McpServer_close
| express_new (app : Ref)
| app_use_json (app : Ref)
| app_post (app : Ref) (route : string)
| app_get (app : Ref) (route : string)
| app_delete (app : Ref) (route : string)
| app_listen (app : Ref) (port : Z) (hostname : option string) (server : Ref)
| http_server_close (server : Ref)
| McpStdioTransport_new (transport : Ref)
| transport_close (transport : Ref).

(** The private fields of the class; an absent optional field is [None]. *)
Record MCPServerImpl : Type := {
  impl : McpImplementation;
  mcpStdioTransport : option Ref;
  mcpHttpTransportSessions : option (gmap string Ref);
  managedHttpServer : option Ref;
  expressApp : option Ref;
  isDestroyed : bool
}.

(** The object together with the world around it: the calls made so
    far, oldest first, and the next unused reference. *)
Record State : Type := {
  this : MCPServerImpl;
  events : list Event;
  next_ref : Ref
}.

(** Methods are state transformers that may throw. *)
Definition M (A : Type) : Type := State -> Completion A * State.

#[global] Instance M_ret : MRet M := λ A a s, (Normal a, s).
#[global] Instance M_bind : MBind M := λ A B k m s,
  match m s with
  | (Normal a, s') => k a s'
  | (Throw e, s') => (Throw e, s')
  end.

Definition throw {A} (e : Exn) : M A := λ s, (Throw e, s).
Definition read : M MCPServerImpl := λ s, (Normal (this s), s).
Definition write (o : MCPServerImpl) : M unit :=
  λ s, (Normal tt, {| this := o; events := events s; next_ref := next_ref s |}).
Definition emit (e : Event) : M unit :=
  λ s, (Normal tt, {| this := this s; events := events s ++ [e]; next_ref := next_ref s |}).
Definition fresh : M Ref :=
  λ s, (Normal (next_ref s),
        {| this := this s; events := events s; next_ref := S (next_ref s) |}).

Definition set_mcpStdioTransport (v : option Ref) : M unit :=
  o ← read;
  write {| impl := impl o; mcpStdioTransport := v;
           mcpHttpTransportSessions := mcpHttpTransportSessions o;
           managedHttpServer := managedHttpServer o;
           expressApp := expressApp o; isDestroyed := isDestroyed o |}.
Definition set_mcpHttpTransportSessions (v : option (gmap string Ref)) : M unit :=
  o ← read;
  write {| impl := impl o; mcpStdioTransport := mcpStdioTransport o;
           mcpHttpTransportSessions := v;
           managedHttpServer := managedHttpServer o;
           expressApp := expressApp o; isDestroyed := isDestroyed o |}.
Definition set_managedHttpServer (v : option Ref) : M unit :=
  o ← read;
  write {| impl := impl o; mcpStdioTransport := mcpStdioTransport o;
           mcpHttpTransportSessions := mcpHttpTransportSessions o;
           managedHttpServer := v;
           expressApp := expressApp o; isDestroyed := isDestroyed o |}.
Definition set_expressApp (v : option Ref) : M unit :=
  o ← read;
  write {| impl := impl o; mcpStdioTransport := mcpStdioTransport o;
           mcpHttpTransportSessions := mcpHttpTransportSessions o;
           managedHttpServer := managedHttpServer o;
           expressApp := v; isDestroyed := isDestroyed o |}.
Definition set_isDestroyed (v : bool) : M unit :=
  o ← read;
  write {| impl := impl o; mcpStdioTransport := mcpStdioTransport o;
           mcpHttpTransportSessions := mcpHttpTransportSessions o;
           managedHttpServer := managedHttpServer o;
           expressApp := expressApp o; isDestroyed := v |}.

Definition installHooks : M unit :=
  emit (McpServer_resource "mcp" "mcp://version") ;;
  emit (McpServer_tool "add") ;;
  emit (McpServer_prompt "review-code").

(** [new MCPServerImpl(impl, options)]: the field initialisers, then the
    constructor body. *)
Definition new_MCPServerImpl (i : McpImplementation) : State :=
  let s0 := {| this := {| impl := i; mcpStdioTransport := None;
                          mcpHttpTransportSessions := None;
                          managedHttpServer := None;
                          expressApp := None;
                          isDestroyed := true |};
               events := []; next_ref := 0 |} in
  snd ((emit (McpServer_new (name i) (version i)) ;; installHooks) s0).

Definition ensureExpressApp : M unit :=
  o ← read;
  match expressApp o with
  | None =>
      app ← fresh;
      emit (express_new app) ;;
      set_expressApp (Some app) ;;
      emit (app_use_json app)
  | Some _ => mret tt
  end.

Definition ensureMcpHttpTransportSessions : M unit :=
  o ← read;
  match mcpHttpTransportSessions o with
  | None => set_mcpHttpTransportSessions (Some ∅)
  | Some _ => mret tt
  end.

Definition ensureMcpStdioTransport : M unit :=
  o ← read;
  match mcpStdioTransport o with
  | None =>
      t ← fresh;
      emit (McpStdioTransport_new t) ;;
      set_mcpStdioTransport (Some t)
  | Some _ => mret tt
  end.

Definition ensureDestroyed : M unit :=
  o ← read;
  if negb (isDestroyed o) then throw (Error "MCPServer is still running")
  else mret tt.

(** [if (options.hostname)]: an absent or empty host name is falsy. *)
Definition given_hostname (options : HttpServeOptions) : option string :=
  match hostname options with
  | Some h => if String.eqb h EmptyString then None else Some h
  | None => None
  end.

(** The ports that [listen] accepts; for any other port it throws a
    RangeError at once, before a server is handed back. *)
Definition valid_port (port : Z) : bool := ((0 <=? port) && (port <=? 65535))%Z.

(** [this.expressApp.listen(port, hostname)], or without the host name.
    Failures other than a bad port (an address in use, ...) are reported
    later, as events of the server, and not to the caller. *)
Definition listen (app : Ref) (port : Z) (host : option string) : M Ref :=
  if valid_port port then
    server ← fresh;
    emit (app_listen app port host server) ;;
    mret server
  else throw (RangeError "options.port should be >= 0 and < 65536").

(** The three route handlers are registered on every call; their bodies
    run per request and read and update the session table only. *)
Definition serveHttp (options : HttpServeOptions) : M unit :=
  ensureDestroyed ;;
  ensureExpressApp ;;
  ensureMcpHttpTransportSessions ;;
  o ← read;
  app ← match expressApp o with
        | None => throw (Error "Failed to create Express app")
        | Some app => mret app
        end;
  match mcpHttpTransportSessions o with
  | None => throw (Error "Failed to create MCP HTTP transport sessions")
  | Some _ => mret tt
  end ;;
  emit (app_post app "/mcp") ;;
  emit (app_get app "/mcp") ;;
  emit (app_delete app "/mcp") ;;
  match managedHttpServer o with
  | Some server =>
      emit (http_server_close server) ;;
      set_managedHttpServer None
  | None => mret tt
  end ;;
  server ← listen app (port options) (given_hostname options);
  set_managedHttpServer (Some server).

(** The promise returned by [connect] is not awaited: a rejection does
    not reach the caller of [serveStdio]. *)
Definition serveStdio : M unit :=
  ensureDestroyed ;;
  ensureMcpStdioTransport ;;
  o ← read;
  match mcpStdioTransport o with
  | None => throw (Error "Failed to create MCP STDIO transport")
  | Some t => emit (McpServer_connect t)
  end.

(** The promise awaited in [destroy] calls [close] on the managed
    server and resolves at once. *)
Definition destroy : M unit :=
  o ← read;
  if isDestroyed o then mret tt
  else
    set_isDestroyed true ;;
    emit McpServer_close ;;
    match managedHttpServer o with
    | Some server => emit (http_server_close server)
    | None => mret tt
    end ;;
    set_expressApp None ;;
    set_mcpHttpTransportSessions None ;;
    match mcpStdioTransport o with
    | Some t => emit (transport_close t)
    | None => mret tt
    end ;;
    set_mcpStdioTransport None.

(** The public methods a client can call after construction. *)
Inductive MethodCall : Type :=
| call_serveHttp (options : HttpServeOptions)
| call_serveStdio
| call_destroy.

Definition invoke (c : MethodCall) : M unit :=
  match c with
  | call_serveHttp options => serveHttp options
  | call_serveStdio => serveStdio
  | call_destroy => destroy
  end.

(** The state after a sequence of calls; a call that throws leaves the
    state it reached and the client goes on. *)
Fixpoint invoke_all (cs : list MethodCall) (s : State) : State :=
  match cs with
  | [] => s
  | c :: rest => invoke_all rest (snd (invoke c s))
  end.

(** An event that closes the server instance or a transport; these are
    emitted by [destroy] only.  ([serveHttp] closes the previous managed
    HTTP server when it is called again.) *)
Definition closes_instance_or_transport (e : Event) : bool :=
  match e with
  | McpServer_close | transport_close _ => true
  | _ => false
  end.

(** The invariant of the object: the flag is set, and neither the server
    instance nor a transport was closed. *)
Definition still_marked_destroyed (s : State) : Prop :=
  isDestroyed (this s) = true
  ∧ Forall (λ e, closes_instance_or_transport e = false) (events s).

End MCPServer.

(** ** The code analyzer of [./analyzers/CodeAnalyzer] *)

Module CodeAnalyzer.

(** A candidate file delivered by the directory traversal. *)
Record SourceFile : Type := {
  file_path : string;
  file_extension : string;
  file_text : string
}.

Inductive FileError : Type :=
| UnsupportedLanguage (extension : string)
| ParseError (offset : option nat)
| QueryCompilationError (pattern language : string).

Inductive Entity : Type :=
| MkEntity (kind name : string) (children : list Entity).

Record FileStructureResult : Type := {
  path : string;
  language : option string;
  entities : list Entity;
  errors : list FileError
}.

Record CodeAnalysisResult : Type := {
  rootDirectory : string;
  fileResults : list FileStructureResult;
  filesScanned : nat;
  filesFailed : nat;
  perLanguage : gmap string nat;
  elapsed : nat
}.

(** The only fatal error: the root directory cannot be traversed. *)
Inductive ScanError : Type :=
| RootInaccessible (rootPath : string).

Definition has_errors (r : FileStructureResult) : bool :=
  match errors r with [] => false | _ => true end.

(** One more file of a language. *)
Definition count_language (l : option string) (m : gmap string nat) : gmap string nat :=
  match l with
  | Some id => <[id := S (default 0 (m !! id))]> m
  | None => m
  end.

Section WithCollaborators.
(** The external collaborators: the profile registry (extension to
    language id), the parser engine and the structurer. *)
Variable Tree : Type.
Variable resolve : string -> option string.
Variable parse : string -> string -> FileError + Tree.
Variable structure : string -> Tree -> list Entity * list FileError.

(** Modelled from the spec: the per-file state machine
    [Pending -> Parsed -> Structured -> Done], or [Pending -> Failed]
    at any step, of the analyzer in [./analyzers/CodeAnalyzer], which
    is not part of the sources at hand.  A failure of resolution,
    parsing or structuring is recorded in the result of that file,
    whose entity list is then empty. *)
Definition processFile (f : SourceFile) : FileStructureResult :=
  match resolve (file_extension f) with
  | None =>
      {| path := file_path f; language := None; entities := [];
         errors := [UnsupportedLanguage (file_extension f)] |}
  | Some lang =>
      match parse lang (file_text f) with
      | inl e =>
          {| path := file_path f; language := Some lang; entities := [];
             errors := [e] |}
      | inr tree =>
          match structure lang tree with
          | (ents, []) =>
              {| path := file_path f; language := Some lang; entities := ents;
                 errors := [] |}
          | (_, errs) =>
              {| path := file_path f; language := Some lang; entities := [];
                 errors := errs |}
          end
      end
  end.

Definition empty_result (rootPath : string) : CodeAnalysisResult :=
  {| rootDirectory := rootPath; fileResults := []; filesScanned := 0;
     filesFailed := 0; perLanguage := ∅; elapsed := 0 |}.

(** Modelled from the spec: one result arrives and is folded into the
    analysis result; the counters are incremented as it arrives. *)
Definition accumulate (acc : CodeAnalysisResult) (f : SourceFile) : CodeAnalysisResult :=
  let r := processFile f in
  {| rootDirectory := rootDirectory acc;
     fileResults := fileResults acc ++ [r];
     filesScanned := S (filesScanned acc);
     filesFailed := if has_errors r then S (filesFailed acc) else filesFailed acc;
     perLanguage := count_language (language r) (perLanguage acc);
     elapsed := elapsed acc |}.

Definition with_elapsed (r : CodeAnalysisResult) (t : nat) : CodeAnalysisResult :=
  {| rootDirectory := rootDirectory r; fileResults := fileResults r;
     filesScanned := filesScanned r; filesFailed := filesFailed r;
     perLanguage := perLanguage r; elapsed := t |}.

(** Modelled from the spec: [analyzeDirectory(rootPath, config)] of
    [./analyzers/CodeAnalyzer].  The traversal, which applies the
    ignore rules of the configuration, is an external collaborator:
    [listing] is what it delivers, the candidate files in the order
    they are processed, or the failure to access the root directory.
    [clock] is the elapsed time that is measured. *)
Definition analyzeDirectory (rootPath : string)
    (listing : ScanError + list SourceFile) (clock : nat)
  : ScanError + CodeAnalysisResult :=
  match listing with
  | inl e => inl e
  | inr files => inr (with_elapsed (foldl accumulate (empty_result rootPath) files) clock)
  end.

(** A file fails when its extension resolves to no profile, when the
    parser rejects its text, or when structuring reports an error. *)
Definition file_fails (f : SourceFile) : Prop :=
  resolve (file_extension f) = None
  ∨ (∃ lang e, resolve (file_extension f) = Some lang
               ∧ parse lang (file_text f) = inl e)
  ∨ (∃ lang tree ents e errs,
       resolve (file_extension f) = Some lang
       ∧ parse lang (file_text f) = inr tree
       ∧ structure lang tree = (ents, e :: errs)).

End WithCollaborators.

(** The ordering policy under which two results are compared: the
    file results sorted by path, the timing counter ignored. *)
Definition path_le (a b : FileStructureResult) : Prop := String.le (path a) (path b).

#[global] Instance path_le_dec : RelDecision path_le.
Proof. intros a b. unfold path_le. apply _. Defined.

Definition canonical (r : CodeAnalysisResult) : CodeAnalysisResult :=
  {| rootDirectory := rootDirectory r;
     fileResults := merge_sort path_le (fileResults r);
     filesScanned := filesScanned r; filesFailed := filesFailed r;
     perLanguage := perLanguage r; elapsed := 0 |}.

End CodeAnalyzer.

(** ** The route handlers registered by [serveHttp] *)

Module McpRoutes.
Import Js.

Definition Ref : Type := nat.

(** What the handlers read of a request: the mcp-session-id header and
    whether [isInitializeRequest] accepts the body. *)
Record Request : Type := {
  mcp_session_id : option string;
  is_initialize : bool
}.

Inductive Event : Type :=
| McpHttpTransport_new (transport : Ref)
| McpServer_connect (transport : Ref)
(** [transport.handleRequest(req, res, req.body)], or without the body. *)
| transport_handleRequest (transport : Ref) (req : Request) (with_body : bool)
(** [res.status(code).json({jsonrpc, error: {code, message}, id: null})]. *)
| res_status_json (status : Z) (error_code : Z) (message : string)
(** [res.status(code).send(text)]. *)
| res_status_send (status : Z) (text : string).

(** The session table (the own properties of the object held in
    [mcpHttpTransportSessions]), the calls made so far, and the next
    unused reference. *)
Record World : Type := {
  sessions : gmap string Ref;
  events : list Event;
  next_ref : Ref
}.

(** Handlers are state transformers that may throw. *)
Definition H (A : Type) : Type := World -> Completion A * World.

#[global] Instance H_ret : MRet H := λ A a w, (Normal a, w).
#[global] Instance H_bind : MBind H := λ A B k m w,
  match m w with
  | (Normal a, w') => k a w'
  | (Throw e, w') => (Throw e, w')
  end.

Definition throw {A} (e : Exn) : H A := λ w, (Throw e, w).
Definition call {A} (c : Completion A) : H A := λ w, (c, w).
Definition world : H World := λ w, (Normal w, w).
Definition emit (e : Event) : H unit :=
  λ w, (Normal tt, {| sessions := sessions w; events := events w ++ [e];
                      next_ref := next_ref w |}).
Definition fresh : H Ref :=
  λ w, (Normal (next_ref w),
        {| sessions := sessions w; events := events w; next_ref := S (next_ref w) |}).
Definition set_sessions (m : gmap string Ref) : H unit :=
  λ w, (Normal tt, {| sessions := m; events := events w; next_ref := next_ref w |}).

(** The world after more calls were made. *)
Definition after (w : World) (calls : list Event) : World :=
  {| sessions := sessions w; events := events w ++ calls; next_ref := next_ref w |}.

(** What [table[sessionId]] evaluates to: a transport stored under the
    key, a value inherited from [Object.prototype] (truthy, and not a
    transport), or [undefined]. *)
Inductive Slot : Type :=
| Stored (transport : Ref)
| Inherited
| Missing.

(** A header that is present and not empty, the only truthy kind. *)
Definition truthy_id (id : option string) : option string :=
  match id with
  | Some s => if String.eqb s EmptyString then None else Some s
  | None => None
  end.

(** The callback [onsessioninitialized] of a transport, called by the
    transport with the id that [randomUUID] produced. *)
Definition onsessioninitialized (transport : Ref) (sessionId : string) : H unit :=
  w ← world;
  set_sessions (<[sessionId := transport]> (sessions w)).

(** The callback [onclose] of a transport whose [sessionId] is given. *)
Definition onclose (transport_sessionId : option string) : H unit :=
  w ← world;
  match truthy_id transport_sessionId with
  | Some sessionId => set_sessions (delete sessionId (sessions w))
  | None => mret tt
  end.

Section WithRuntime.
(** The property names of [Object.prototype], the completion of
    [mcpInst.connect] and that of [transport.handleRequest]. *)
Variable inherited : string -> bool.
Variable connect_completes : Ref -> Completion unit.
Variable handleRequest_completes : Ref -> Request -> Completion unit.
(** The session id that a new transport generates with its
    [sessionIdGenerator] while it handles a request, if the request makes
    it initialize a session; the transport then calls the
    [onsessioninitialized] it was constructed with. *)
Variable session_initialized : Ref -> Request -> option string.

Definition lookup_session (w : World) (sessionId : string) : Slot :=
  match sessions w !! sessionId with
  | Some transport => Stored transport
  | None => if inherited sessionId then Inherited else Missing
  end.

(** [transport.handleRequest] on a transport taken from the session
    table.  Its session is initialized already, so its
    [onsessioninitialized] closure does not run again; the [onclose]
    closure is the operation [onclose] above. *)
Definition handleRequest (transport : Ref) (req : Request) (with_body : bool) : H unit :=
  emit (transport_handleRequest transport req with_body) ;;
  call (handleRequest_completes transport req).

(** [transport.handleRequest(req, res, req.body)] on the transport that
    the POST handler has just made: a transport that initializes a session
    runs the closure given as [onsessioninitialized] before the call
    returns. *)
Definition handleRequest_new (transport : Ref) (req : Request) : H unit :=
  emit (transport_handleRequest transport req true) ;;
  match session_initialized transport req with
  | Some sessionId => onsessioninitialized transport sessionId
  | None => mret tt
  end ;;
  call (handleRequest_completes transport req).

Definition bad_request : H unit :=
  emit (res_status_json 400 (-32000) "Bad Request: No valid session ID provided").

(** The handler of POST /mcp. *)
Definition post_mcp (req : Request) : H unit :=
  w ← world;
  match truthy_id (mcp_session_id req) with
  | Some sessionId =>
      match lookup_session w sessionId with
      | Stored transport => handleRequest transport req true
      | Inherited => throw (TypeError "transport.handleRequest is not a function")
      | Missing => bad_request
      end
  | None =>
      if is_initialize req then
        transport ← fresh;
        emit (McpHttpTransport_new transport) ;;
        emit (McpServer_connect transport) ;;
        call (connect_completes transport) ;;
        handleRequest_new transport req
      else bad_request
  end.

(** [handleSessionRequest], the handler of GET /mcp and DELETE /mcp. *)
Definition handleSessionRequest (req : Request) : H unit :=
  w ← world;
  match truthy_id (mcp_session_id req) with
  | None => emit (res_status_send 400 "Invalid or missing session ID")
  | Some sessionId =>
      match lookup_session w sessionId with
      | Missing => emit (res_status_send 400 "Invalid or missing session ID")
      | Stored transport => handleRequest transport req false
      | Inherited => throw (TypeError "transport.handleRequest is not a function")
      end
  end.

End WithRuntime.

End McpRoutes.

(** ** Reading the log of calls of the MCP server wrapper *)

Module ServerLog.
Import MCPServer.

Definition started_server (e : Event) : option Ref :=
  match e with app_listen _ _ _ server => Some server | _ => None end.
Definition closed_server (e : Event) : option Ref :=
  match e with http_server_close server => Some server | _ => None end.
Definition created_app (e : Event) : option Ref :=
  match e with express_new app => Some app | _ => None end.
Definition created_stdio (e : Event) : option Ref :=
  match e with McpStdioTransport_new t => Some t | _ => None end.
Definition connected (e : Event) : option Ref :=
  match e with McpServer_connect t => Some t | _ => None end.

(** The calls that start and close HTTP servers, kept in their order. *)
Inductive ServerOp : Type :=
| Started (server : Ref)
| Closed (server : Ref).

Definition server_op (e : Event) : option ServerOp :=
  match e with
  | app_listen _ _ _ server => Some (Started server)
  | http_server_close server => Some (Closed server)
  | _ => None
  end.

(** The whole life of a server that was closed. *)
Definition life (server : Ref) : list ServerOp := [Started server; Closed server].

(** The application and the route of a handler registration, per verb. *)
Definition registered_post (e : Event) : option (Ref * string) :=
  match e with app_post app route => Some (app, route) | _ => None end.
Definition registered_get (e : Event) : option (Ref * string) :=
  match e with app_get app route => Some (app, route) | _ => None end.
Definition registered_delete (e : Event) : option (Ref * string) :=
  match e with app_delete app route => Some (app, route) | _ => None end.

Definition is_serveHttp (c : MethodCall) : bool :=
  match c with call_serveHttp _ => true | _ => false end.
Definition is_serveStdio (c : MethodCall) : bool :=
  match c with call_serveStdio => true | _ => false end.

Definition serveHttp_calls (cs : list MethodCall) : nat :=
  length (filter (λ c, is_serveHttp c) cs).
Definition serveStdio_calls (cs : list MethodCall) : nat :=
  length (filter (λ c, is_serveStdio c) cs).

(** What the log and the fields say about each other. *)
Record consistent (s : State) : Prop := {
  flag_set : isDestroyed (this s) = true;
  servers_accounted :
    omap started_server (events s)
      = omap closed_server (events s) ++ option_list (managedHttpServer (this s));
  servers_known : Forall (λ server, server < next_ref s) (omap started_server (events s));
  one_app : omap created_app (events s) = option_list (expressApp (this s));
  one_stdio : omap created_stdio (events s) = option_list (mcpStdioTransport (this s));
  same_stdio :
    Forall (λ t, mcpStdioTransport (this s) = Some t) (omap connected (events s));
  same_app_post :
    Forall (λ r, expressApp (this s) = Some r.1 ∧ r.2 = "/mcp")
      (omap registered_post (events s));
  same_app_get :
    Forall (λ r, expressApp (this s) = Some r.1 ∧ r.2 = "/mcp")
      (omap registered_get (events s));
  same_app_delete :
    Forall (λ r, expressApp (this s) = Some r.1 ∧ r.2 = "/mcp")
      (omap registered_delete (events s))
}.

End ServerLog.

(** ** The verdicts in an answer of the AI, as plain list functions *)

Module Verdicts.
Import Js AiValidator.

(** An element of the answer whose properties can be read. *)
Definition readable (v : Value) : Prop := v ≠ Null ∧ v ≠ Undefined.

(** The value of [v.k] for a readable [v]. *)
Definition field (k : string) (v : Value) : Value :=
  match v with
  | Obj fields => lookup_field k fields
  | _ => Undefined
  end.

Definition accepted (v : Value) : bool := truthy (field "isValid" v).

Definition valid_terms (items : list Value) : list Value :=
  field "term" <$> filter (λ v, accepted v) items.

Definition invalid_terms (items : list Value) : list InvalidConcept :=
  (λ v, {| term := field "term" v; reason := field "reason" v |})
    <$> filter (λ v, ¬ accepted v) items.

Section WithCollaborators.
Variable reply_completes : string → Completion string.
Variable MarkdownCodeBlock_from : string → Completion (list CodeBlock).
Variable JSON_parse : string → Completion Value.

(** The answer of the AI is usable up to the array of verdicts. *)
Definition answered (extractedTerms : list string) (codeContext : string)
    (items : list Value) : Prop :=
  ∃ text b blocks response,
    reply_completes (prompt extractedTerms codeContext) = Normal text
    ∧ MarkdownCodeBlock_from text = Normal (b :: blocks)
    ∧ JSON_parse (code b) = Normal response
    ∧ get_prop response "results" = Normal (Arr items).

End WithCollaborators.

End Verdicts.

(** ** Concrete inputs used in the examples below *)

Module Examples.

(** A parser engine that accepts every pattern for every grammar. *)
Definition any_pattern : string → LanguageProfile.Grammar → bool := λ _ _, true.

(** The doc-comment query of the Rust profile, its compiled objects for
    the grammar handles 0 and 1, and the caches after each compilation. *)
Definition comments : LanguageProfile.MemoizedQuery :=
  LanguageProfile.Build_MemoizedQuery RustProfile.blockCommentQuery_text.
Definition comments_0 : LanguageProfile.CompiledQuery :=
  LanguageProfile.Build_CompiledQuery 0 RustProfile.blockCommentQuery_text 0.
Definition comments_1 : LanguageProfile.CompiledQuery :=
  LanguageProfile.Build_CompiledQuery 1 RustProfile.blockCommentQuery_text 1.
Definition cache_1 : LanguageProfile.Cache :=
  (LanguageProfile.query any_pattern comments 0 LanguageProfile.empty_cache).2.
Definition cache_2 : LanguageProfile.Cache :=
  (LanguageProfile.query any_pattern comments 1 cache_1).2.

(** The collaborators of the analyzer application: an analysis that
    succeeds, a file system that accepts every write, and an endpoint
    whose behaviour is the parameter. *)
Definition join_paths (a b : string) : string := a +:+ "/" +:+ b.

Definition upload_config : InterfaceAnalyzerApp.AppConfig :=
  {| InterfaceAnalyzerApp.dirPath := "/repo";
     InterfaceAnalyzerApp.outputJsonFile := None;
     InterfaceAnalyzerApp.upload := true;
     InterfaceAnalyzerApp.serverUrl := "http://localhost:3000/api/context" |}.

Definition app_uploadResult
    (endpoint : string → string → Js.Completion InterfaceAnalyzerApp.Response)
  : Effects.Prog unit :=
  InterfaceAnalyzerApp.uploadResult unit unit "/work" join_paths
    (λ _ _, "{ }") (λ _ _, "{}") (λ _, Js.Normal tt) (λ _ _, Js.Normal tt)
    endpoint tt upload_config.

Definition app_run
    (endpoint : string → string → Js.Completion InterfaceAnalyzerApp.Response)
  : Effects.Prog unit :=
  InterfaceAnalyzerApp.run unit unit "/work" join_paths
    (λ _ _, "{ }") (λ _ _, "{}") (Js.Normal tt) (λ _, Js.Normal tt)
    (λ _, Js.Normal tt) (λ _, Js.Normal tt) (λ _, Js.Normal tt)
    (λ _ _, Js.Normal tt) endpoint upload_config.

(** The same application with upload enabled and an output file name. *)
Definition named_upload_config : InterfaceAnalyzerApp.AppConfig :=
  {| InterfaceAnalyzerApp.dirPath := "/repo";
     InterfaceAnalyzerApp.outputJsonFile := Some "scan.json";
     InterfaceAnalyzerApp.upload := true;
     InterfaceAnalyzerApp.serverUrl := "http://localhost:3000/api/context" |}.

Definition app_run_named
    (endpoint : string → string → Js.Completion InterfaceAnalyzerApp.Response)
  : Effects.Prog unit :=
  InterfaceAnalyzerApp.run unit unit "/work" join_paths
    (λ _ _, "{ }") (λ _ _, "{}") (Js.Normal tt) (λ _, Js.Normal tt)
    (λ _, Js.Normal tt) (λ _, Js.Normal tt) (λ _, Js.Normal tt)
    (λ _ _, Js.Normal tt) endpoint named_upload_config.

(** The same application with upload disabled and an output file name. *)
Definition local_config : InterfaceAnalyzerApp.AppConfig :=
  {| InterfaceAnalyzerApp.dirPath := "/repo";
     InterfaceAnalyzerApp.outputJsonFile := Some "out.json";
     InterfaceAnalyzerApp.upload := false;
     InterfaceAnalyzerApp.serverUrl := "http://localhost:3000/api/context" |}.

Definition app_run_local
    (endpoint : string → string → Js.Completion InterfaceAnalyzerApp.Response)
  : Effects.Prog unit :=
  InterfaceAnalyzerApp.run unit unit "/work" join_paths
    (λ _ _, "{ }") (λ _ _, "{}") (Js.Normal tt) (λ _, Js.Normal tt)
    (λ _, Js.Normal tt) (λ _, Js.Normal tt) (λ _, Js.Normal tt)
    (λ _ _, Js.Normal tt) endpoint local_config.

(** A file system that refuses every write. *)
Definition read_only_disk : string → string → Js.Completion unit :=
  λ _ _, Js.Throw (Js.Error "EROFS: read-only file system").

(** An endpoint that answers 200 with the body null. *)
Definition null_body : InterfaceAnalyzerApp.Response :=
  {| InterfaceAnalyzerApp.status := 200;
     InterfaceAnalyzerApp.json := Js.Normal Js.Null |}.

(** An endpoint that cannot be reached. *)
Definition unreachable : string → string → Js.Completion InterfaceAnalyzerApp.Response :=
  λ _ _, Js.Throw (Js.Error "connect ECONNREFUSED").


(** An endpoint that answers 200 with a body whose success field is false. *)
Definition ok_status_failure_body : InterfaceAnalyzerApp.Response :=
  {| InterfaceAnalyzerApp.status := 200;
     InterfaceAnalyzerApp.json :=
       Js.Normal (Js.Obj [("success", Js.Bool false); ("error", Js.Str "quota")]) |}.

(** The collaborators of the concept validator.  The AI answers with a
    fenced block; the extraction finds it; the parser is the parameter. *)
Definition ai_answer : string → Js.Completion string :=
  λ _, Js.Normal "```json { } ```".

Definition one_block : string → Js.Completion (list AiValidator.CodeBlock) :=
  λ _, Js.Normal [AiValidator.Build_CodeBlock "{ }"].

Definition parsed_verdicts : string → Js.Completion Js.Value :=
  λ _, Js.Normal (Js.Obj [("results", Js.Arr [
         Js.Obj [("term", Js.Str "Invoice"); ("isValid", Js.Bool true);
                 ("reason", Js.Str "billing entity")];
         Js.Obj [("term", Js.Str "loop"); ("isValid", Js.Bool false);
                 ("reason", Js.Str "generic term")]])]).

(** The verdicts of [parsed_verdicts]. *)
Definition verdicts : list Js.Value :=
  [Js.Obj [("term", Js.Str "Invoice"); ("isValid", Js.Bool true);
           ("reason", Js.Str "billing entity")];
   Js.Obj [("term", Js.Str "loop"); ("isValid", Js.Bool false);
           ("reason", Js.Str "generic term")]].

(** An answer whose second verdict is null. *)
Definition parsed_with_null : string → Js.Completion Js.Value :=
  λ _, Js.Normal (Js.Obj [("results", Js.Arr [
         Js.Obj [("term", Js.Str "loop"); ("isValid", Js.Bool false)];
         Js.Null])]).

Definition parser_rejects : string → Js.Completion Js.Value :=
  λ _, Js.Throw (Js.SyntaxError "Unexpected token").

(** An implementation and a sequence of calls: a server on a port that
    is out of range, a [destroy], and a server on port 3000. *)
Definition mcp_impl : MCPServer.McpImplementation :=
  MCPServer.Build_McpImplementation "ctx" "0.1.0".
Definition serve_destroy_serve : list MCPServer.MethodCall :=
  [MCPServer.call_serveHttp (MCPServer.Build_HttpServeOptions (-1) None);
   MCPServer.call_destroy;
   MCPServer.call_serveHttp (MCPServer.Build_HttpServeOptions 3000 None)].

(** An object whose flag was cleared by hand, with a managed HTTP server
    and a stdio transport: the one kind of state in which the body of
    [destroy] runs. *)
Definition running : MCPServer.State :=
  MCPServer.Build_State
    (MCPServer.Build_MCPServerImpl (MCPServer.Build_McpImplementation "ctx" "0.1.0")
       (Some 2) (Some ∅) (Some 1) (Some 0) false)
    [] 3.

(** The runtime of the route handlers: the property names that a plain
    object inherits, and a server and transports that accept every call. *)
Definition object_prototype (name : string) : bool :=
  bool_decide (name ∈ ["constructor"; "__proto__"; "hasOwnProperty"; "isPrototypeOf";
                       "propertyIsEnumerable"; "toLocaleString"; "toString"; "valueOf";
                       "__defineGetter__"; "__defineSetter__"; "__lookupGetter__";
                       "__lookupSetter__"]).
Definition accepts_connect : McpRoutes.Ref → Js.Completion unit := λ _, Js.Normal tt.
Definition handles : McpRoutes.Ref → McpRoutes.Request → Js.Completion unit :=
  λ _ _, Js.Normal tt.

(** A transport that initializes the session 5b1c on an initialize
    request. *)
Definition issues_session : McpRoutes.Ref → McpRoutes.Request → option string :=
  λ _ req, if McpRoutes.is_initialize req then Some "5b1c" else None.

(** A table with one session, stored for transport 5. *)
Definition one_session : McpRoutes.World :=
  McpRoutes.Build_World {["7f3a" := 5]} [] 6.

(** The implementation named ctx and a sequence of calls that serves
    over HTTP twice, with a [destroy] and two [serveStdio] in between. *)
Definition ctx : MCPServer.McpImplementation :=
  MCPServer.Build_McpImplementation "ctx" "0.1.0".
Definition two_serveHttp : list MCPServer.MethodCall :=
  [MCPServer.call_serveHttp (MCPServer.Build_HttpServeOptions 3000 (Some EmptyString));
   MCPServer.call_destroy;
   MCPServer.call_serveStdio;
   MCPServer.call_serveStdio;
   MCPServer.call_serveHttp (MCPServer.Build_HttpServeOptions 3001 (Some "localhost"))].

(** A server named ctx that is served over HTTP, destroyed, served over
    stdio twice and served over HTTP again. *)
Definition served_twice : MCPServer.State :=
  MCPServer.invoke_all
    [MCPServer.call_serveHttp (MCPServer.Build_HttpServeOptions 3000 (Some EmptyString));
     MCPServer.call_destroy;
     MCPServer.call_serveStdio;
     MCPServer.call_serveStdio;
     MCPServer.call_serveHttp (MCPServer.Build_HttpServeOptions 3001 (Some "localhost"))]
    (MCPServer.new_MCPServerImpl (MCPServer.Build_McpImplementation "ctx" "0.1.0")).

(** The collaborators of the analyzer: only the extension rs resolves;
    the parser hands the text on as the tree unless it is the text with
    unbalanced braces; the structurer finds the struct Point. *)
Definition resolve_rs (extension : string) : option string :=
  if String.eqb extension "rs" then Some "rust" else None.

Definition parse_text (lang text : string) : CodeAnalyzer.FileError + string :=
  if String.eqb text "fn broken() {" then inl (CodeAnalyzer.ParseError (Some 13))
  else inr text.

Definition structure_point (lang tree : string)
  : list CodeAnalyzer.Entity * list CodeAnalyzer.FileError :=
  ([CodeAnalyzer.MkEntity "struct" "Point"
      [CodeAnalyzer.MkEntity "field" "x" []; CodeAnalyzer.MkEntity "field" "y" []]],
   []).

Definition point_rs : CodeAnalyzer.SourceFile :=
  CodeAnalyzer.Build_SourceFile "src/point.rs" "rs" "struct Point { x: i32, y: i32 }".
Definition broken_rs : CodeAnalyzer.SourceFile :=
  CodeAnalyzer.Build_SourceFile "src/broken.rs" "rs" "fn broken() {".
Definition notes_txt : CodeAnalyzer.SourceFile :=
  CodeAnalyzer.Build_SourceFile "notes.txt" "txt" "todo".

Definition scan (files : list CodeAnalyzer.SourceFile) (clock : nat)
  : CodeAnalyzer.ScanError + CodeAnalyzer.CodeAnalysisResult :=
  CodeAnalyzer.analyzeDirectory string resolve_rs parse_text structure_point
    "/repo" (inr files) clock.

End Examples.

(** * Properties *)

(** ** The Rust profile *)

(** C4: the symbol-kind taxonomy of the Rust profile is exactly one group,
    whose members are, in this order, const, function, variable, struct,
    enum, union, typedef, interface, field, enumerator, module, label and
    lifetime. *)
Theorem rust_namespaces_one_ordered_group :
  RustProfile.namespaces =
    [["const"; "function"; "variable"; "struct"; "enum"; "union"; "typedef";
      "interface"; "field"; "enumerator"; "module"; "label"; "lifetime"]]
  ∧ length RustProfile.namespaces = 1
  ∧ (length <$> RustProfile.namespaces) = [13].
Proof. repeat split; reflexivity. Qed.

Lemma substring_whole (t : string) :
  String.substring 0 (String.length t) t = t.
Proof. induction t as [|c t IH]; simpl; [done | by rewrite IH]. Qed.

Lemma substring_after_prefix (q t : string) :
  String.substring (String.length q) (String.length t) (q +:+ t) = t.
Proof. induction q as [|c q IH]; simpl; [apply substring_whole | exact IH]. Qed.

Lemma string_length_app (q t : string) :
  String.length (q +:+ t) = String.length q + String.length t.
Proof. induction q as [|c q IH]; simpl; [done | by rewrite IH]. Qed.

Lemma substring_split (s : string) (n : nat) :
  n ≤ String.length s →
  s = String.substring 0 n s +:+ String.substring n (String.length s - n) s.
Proof.
  revert n. induction s as [|c s IH]; intros [|n] Hn; simpl in *; try done.
  - by rewrite substring_whole.
  - change (String c s = String c (String.substring 0 n s +:+
                                     String.substring n (String.length s - n) s)).
    f_equal. apply IH. lia.
Qed.

Lemma endsWith_spec (s t : string) :
  Js.endsWith s t = true ↔ ∃ q, s = q +:+ t.
Proof.
  unfold Js.endsWith. split.
  - destruct (Nat.ltb_spec (String.length s) (String.length t)) as [|Hle]; [done|].
    intros Heq%String.eqb_eq.
    exists (String.substring 0 (String.length s - String.length t) s).
    pose proof (substring_split s (String.length s - String.length t)) as Hs.
    replace (String.length s - (String.length s - String.length t))
      with (String.length t) in Hs by lia.
    rewrite Heq in Hs. apply Hs. lia.
  - intros [q ->]. rewrite string_length_app.
    destruct (Nat.ltb_spec (String.length q + String.length t) (String.length t)); [lia|].
    replace (String.length q + String.length t - String.length t) with (String.length q) by lia.
    rewrite substring_after_prefix. apply String.eqb_refl.
Qed.

(** C8: [isTestFile p] is true exactly when [p] ends with the suffix
    test.rs; hence latest.rs and my_test.rs count as test files, and a file
    under a tests/ directory whose name lacks the suffix does not. *)
Theorem isTestFile_iff_suffix :
  (∀ p : string, RustProfile.isTestFile p = true ↔ ∃ q, p = q +:+ "test.rs")
  ∧ RustProfile.isTestFile "latest.rs" = true
  ∧ RustProfile.isTestFile "my_test.rs" = true
  ∧ RustProfile.isTestFile "src/latest.rs" = true
  ∧ RustProfile.isTestFile "tests/parser.rs" = false
  ∧ RustProfile.isTestFile "tests/integration/mod.rs" = false.
Proof.
  split; [|by repeat split].
  intros p. apply endsWith_spec.
Qed.

(** ** The pattern query cache *)

Section CacheProperties.
Import LanguageProfile.
Variable well_formed : string → Grammar → bool.

Local Abbreviation get := (get well_formed).
Local Abbreviation requests := (requests well_formed).

Lemma cache_ok_empty : cache_ok empty_cache.
Proof. split; intros ? ? H; simpl in H; [by rewrite lookup_empty in H | done]. Qed.

Lemma get_hit p g c q :
  entries c !! (p, g) = Some q → get p g c = (inr q, c).
Proof. intros H. unfold LanguageProfile.get. by rewrite H. Qed.

Lemma get_returns_entry p g c q c' :
  get p g c = (inr q, c') → entries c' !! (p, g) = Some q.
Proof.
  unfold LanguageProfile.get. destruct (entries c !! (p, g)) as [q0|] eqn:E.
  - intros [= <- <-]. done.
  - destruct (well_formed p g); intros [= <- <-]; simpl.
    apply lookup_insert_eq.
Qed.

Lemma get_keeps_entries p g c k q :
  entries c !! k = Some q → entries (get p g c).2 !! k = Some q.
Proof.
  intros H. unfold LanguageProfile.get.
  destruct (entries c !! (p, g)) as [q0|] eqn:E; [done|].
  destruct (well_formed p g); [|done]. simpl.
  rewrite lookup_insert_ne; [done|]. intros <-. congruence.
Qed.

Lemma get_preserves_ok p g c : cache_ok c → cache_ok (get p g c).2.
Proof.
  intros [He Ha]. unfold LanguageProfile.get.
  destruct (entries c !! (p, g)) as [q0|] eqn:E; [done|].
  destruct (well_formed p g); [|done]. simpl. split; simpl.
  - intros k q. rewrite lookup_insert. case_decide as Hk.
    + intros [= <-]. subst k. split; [done|]. simpl.
      by rewrite lookup_app_r, Nat.sub_diag.
    + intros Hq. destruct (He _ _ Hq) as [Hkey Hal]. split; [done|].
      by apply lookup_app_l_Some.
  - intros i q Hi. apply lookup_app_Some in Hi as [Hi|[Hlen Hi]].
    + destruct (Ha _ _ Hi) as [Hr Hq]. split; [done|].
      rewrite lookup_insert_ne; [done|]. intros Hk. rewrite <- Hk in Hq. congruence.
    + apply list_lookup_singleton_Some in Hi as [Hi <-]. simpl. split; [lia|].
      apply lookup_insert_eq.
Qed.

Lemma requests_preserves_ok rs c : cache_ok c → cache_ok (requests rs c).
Proof.
  revert c. induction rs as [|[p g] rs IH]; intros c Hc; simpl; [done|].
  by apply IH, get_preserves_ok.
Qed.

Lemma requests_keeps_entries rs c k q :
  entries c !! k = Some q → entries (requests rs c) !! k = Some q.
Proof.
  revert c. induction rs as [|[p g] rs IH]; intros c Hc; simpl; [done|].
  by apply IH, get_keeps_entries.
Qed.

Lemma cache_ok_one_object_per_key c i j qi qj :
  cache_ok c →
  allocated c !! i = Some qi → allocated c !! j = Some qj →
  key_of qi = key_of qj → i = j.
Proof.
  intros [_ Ha] Hi Hj Hk.
  destruct (Ha _ _ Hi) as [<- Hqi]. destruct (Ha _ _ Hj) as [<- Hqj].
  rewrite Hk in Hqi. congruence.
Qed.

End CacheProperties.

(** C1: a compiled query object is never shared across two different
    grammar handles.  Whatever was requested before and in between, when
    the same pattern is evaluated against a grammar [g1] and later against
    a different grammar [g2], the two objects returned have different
    identities, and each was compiled against the grammar asked for. *)
Theorem compiled_query_not_shared_across_grammars
    (well_formed : string → LanguageProfile.Grammar → bool)
    (before between : list (string * LanguageProfile.Grammar))
    (m : LanguageProfile.MemoizedQuery) (g1 g2 : LanguageProfile.Grammar)
    (q1 q2 : LanguageProfile.CompiledQuery) (c1 c2 : LanguageProfile.Cache) :
  g1 ≠ g2 →
  LanguageProfile.query well_formed m g1
    (LanguageProfile.requests well_formed before LanguageProfile.empty_cache)
    = (inr q1, c1) →
  LanguageProfile.query well_formed m g2
    (LanguageProfile.requests well_formed between c1) = (inr q2, c2) →
  LanguageProfile.cq_ref q1 ≠ LanguageProfile.cq_ref q2
  ∧ LanguageProfile.cq_grammar q1 = g1
  ∧ LanguageProfile.cq_grammar q2 = g2.
Proof.
  intros Hne H1 H2. unfold LanguageProfile.query in *.
  set (c0 := LanguageProfile.requests well_formed before LanguageProfile.empty_cache) in *.
  assert (LanguageProfile.cache_ok c2) as Hok2.
  { replace c2 with (LanguageProfile.get well_formed (LanguageProfile.queryStr m) g2
                       (LanguageProfile.requests well_formed between c1)).2
      by (by rewrite H2).
    apply get_preserves_ok, requests_preserves_ok.
    replace c1 with (LanguageProfile.get well_formed (LanguageProfile.queryStr m) g1 c0).2
      by (by rewrite H1).
    apply get_preserves_ok, requests_preserves_ok, cache_ok_empty. }
  assert (LanguageProfile.entries c2 !! (LanguageProfile.queryStr m, g1) = Some q1) as E1.
  { replace c2 with (LanguageProfile.get well_formed (LanguageProfile.queryStr m) g2
                       (LanguageProfile.requests well_formed between c1)).2
      by (by rewrite H2).
    eapply get_keeps_entries, requests_keeps_entries, get_returns_entry, H1. }
  pose proof (get_returns_entry _ _ _ _ _ _ H2) as E2.
  destruct Hok2 as [He _].
  destruct (He _ _ E1) as [K1 A1]. destruct (He _ _ E2) as [K2 A2].
  injection K1 as _ G1. injection K2 as _ G2.
  split; [|done]. intros Href. rewrite Href in A1. congruence.
Qed.

Lemma compiled_query_not_shared_across_grammars_witness :
  0 ≠ 1
  ∧ LanguageProfile.query Examples.any_pattern Examples.comments 0
      (LanguageProfile.requests Examples.any_pattern [] LanguageProfile.empty_cache)
    = (inr Examples.comments_0, Examples.cache_1)
  ∧ LanguageProfile.query Examples.any_pattern Examples.comments 1
      (LanguageProfile.requests Examples.any_pattern [] Examples.cache_1)
    = (inr Examples.comments_1, Examples.cache_2)
  ∧ (LanguageProfile.cq_ref Examples.comments_0 ≠ LanguageProfile.cq_ref Examples.comments_1
     ∧ LanguageProfile.cq_grammar Examples.comments_0 = 0
     ∧ LanguageProfile.cq_grammar Examples.comments_1 = 1).
Proof.
  assert (0 ≠ 1) as Hne by lia.
  assert (LanguageProfile.query Examples.any_pattern Examples.comments 0
            (LanguageProfile.requests Examples.any_pattern [] LanguageProfile.empty_cache)
          = (inr Examples.comments_0, Examples.cache_1)) as H1
    by (vm_compute; reflexivity).
  assert (LanguageProfile.query Examples.any_pattern Examples.comments 1
            (LanguageProfile.requests Examples.any_pattern [] Examples.cache_1)
          = (inr Examples.comments_1, Examples.cache_2)) as H2
    by (vm_compute; reflexivity).
  exact (conj Hne (conj H1 (conj H2
    (compiled_query_not_shared_across_grammars Examples.any_pattern [] []
       Examples.comments 0 1 _ _ _ _ Hne H1 H2)))).
Defined.

(** C2: evaluation is memoized and lazy.  Once a request for a pattern
    and a grammar has returned an object, every later request for the same
    pair returns that very object and leaves the cache as it is, so nothing
    is compiled again; no two objects were ever compiled for one pair; and
    constructing a [MemoizedQuery], or the whole Rust profile, compiles
    nothing. *)
Theorem compiled_query_memoized_and_lazy
    (well_formed : string → LanguageProfile.Grammar → bool)
    (before between : list (string * LanguageProfile.Grammar))
    (m : LanguageProfile.MemoizedQuery) (g : LanguageProfile.Grammar)
    (q : LanguageProfile.CompiledQuery) (c1 : LanguageProfile.Cache) :
  LanguageProfile.query well_formed m g
    (LanguageProfile.requests well_formed before LanguageProfile.empty_cache)
    = (inr q, c1) →
  let c2 := LanguageProfile.requests well_formed between c1 in
  LanguageProfile.query well_formed m g c2 = (inr q, c2)
  ∧ (∀ i j qi qj,
       LanguageProfile.allocated c2 !! i = Some qi →
       LanguageProfile.allocated c2 !! j = Some qj →
       LanguageProfile.cq_pattern qi = LanguageProfile.cq_pattern qj →
       LanguageProfile.cq_grammar qi = LanguageProfile.cq_grammar qj →
       i = j)
  ∧ (∀ text c, (LanguageProfile.new_MemoizedQuery text c).2 = c)
  ∧ (∀ rust c, (RustProfile.new_RustProfile rust c).2 = c).
Proof.
  intros H1 c2. unfold LanguageProfile.query in *.
  assert (LanguageProfile.cache_ok c2) as Hok2.
  { apply requests_preserves_ok.
    replace c1 with (LanguageProfile.get well_formed (LanguageProfile.queryStr m) g
      (LanguageProfile.requests well_formed before LanguageProfile.empty_cache)).2
      by (by rewrite H1).
    apply get_preserves_ok, requests_preserves_ok, cache_ok_empty. }
  split; [|split; [|split]].
  - apply get_hit. eapply requests_keeps_entries, get_returns_entry, H1.
  - intros i j qi qj Hi Hj Hp Hg.
    eapply cache_ok_one_object_per_key; [exact Hok2|exact Hi|exact Hj|].
    unfold LanguageProfile.key_of. by rewrite Hp, Hg.
  - done.
  - done.
Qed.

Lemma compiled_query_memoized_and_lazy_witness :
  LanguageProfile.query Examples.any_pattern Examples.comments 0
      (LanguageProfile.requests Examples.any_pattern [] LanguageProfile.empty_cache)
    = (inr Examples.comments_0, Examples.cache_1)
  ∧ LanguageProfile.query Examples.any_pattern Examples.comments 0
      (LanguageProfile.requests Examples.any_pattern [("(identifier) @name", 1)]
         Examples.cache_1)
    = (inr Examples.comments_0,
       LanguageProfile.requests Examples.any_pattern [("(identifier) @name", 1)]
         Examples.cache_1).
Proof.
  assert (LanguageProfile.query Examples.any_pattern Examples.comments 0
            (LanguageProfile.requests Examples.any_pattern [] LanguageProfile.empty_cache)
          = (inr Examples.comments_0, Examples.cache_1)) as H1
    by (vm_compute; reflexivity).
  exact (conj H1 (proj1 (compiled_query_memoized_and_lazy Examples.any_pattern []
                           [("(identifier) @name", 1)] Examples.comments 0 _ _ H1))).
Defined.

(** ** Equations of the trace monad *)

Section ProgEquations.
Import Js Effects.

Lemma bind_call_Normal {A B} (a : A) (k : A → Prog B) :
  (Effects.call (Js.Normal a) ≫= k) = k a.
Proof. unfold mbind, prog_bind, bind, call. by destruct (k a). Qed.

Lemma bind_emit {B} (e : Event) (k : unit → Prog B) :
  (emit e ≫= k) = (e :: trace (k tt), completion (k tt)).
Proof. unfold mbind, prog_bind, bind, emit, trace, completion. by destruct (k tt). Qed.

Lemma bind_Normal {A B} (t : list Event) (a : A) (k : A → Prog B) :
  ((t, Normal a) ≫= k) = (t ++ trace (k a), completion (k a)).
Proof. unfold mbind, prog_bind, bind, trace, completion. by destruct (k a). Qed.

Lemma bind_call_Throw {A B} (e : Exn) (k : A → Prog B) :
  (call (Throw e) ≫= k) = ([], Throw e).
Proof. reflexivity. Qed.

Lemma try_catch_Normal {A} (t : list Event) (a : A) (h : Exn → Prog A) :
  try_catch (t, Normal a) h = (t, Normal a).
Proof. reflexivity. Qed.

Lemma try_catch_Throw {A} (t : list Event) (e : Exn) (h : Exn → Prog A) :
  try_catch (t, Throw e) h = (t ++ trace (h e), completion (h e)).
Proof. unfold try_catch, trace, completion. by destruct (h e). Qed.

End ProgEquations.

(** ** The analyzer application *)

Ltac not_in_trace H :=
  repeat (apply elem_of_cons in H as [H|H]; [discriminate H|]);
  by apply elem_of_nil in H.

Section AppProperties.
Import Js Effects InterfaceAnalyzerApp.

Context {CodeAnalysisResult TextResult : Type}.
Variable cwd : string.
Variable path_join : string → string → string.
Variable stringify_indented stringify : ∀ A : Type, A → string.
Variable initialize : Completion unit.
Variable updateConfig : AppConfig → Completion unit.
Variable analyzeDirectory : AppConfig → Completion CodeAnalysisResult.
Variable convertToList : CodeAnalysisResult → Completion TextResult.
Variable generateLearningMaterials : CodeAnalysisResult → Completion unit.
Variable writeFileSync_completes : string → string → Completion unit.
Variable fetch_completes : string → string → Completion Response.

Local Abbreviation uploadResult :=
  (uploadResult CodeAnalysisResult TextResult cwd path_join stringify_indented stringify
     convertToList writeFileSync_completes fetch_completes).
Local Abbreviation run :=
  (run CodeAnalysisResult TextResult cwd path_join stringify_indented stringify
     initialize updateConfig analyzeDirectory convertToList generateLearningMaterials
     writeFileSync_completes fetch_completes).

Lemma uploadResult_completes_normally result config :
  completion (uploadResult result config) = Normal tt.
Proof.
  unfold InterfaceAnalyzerApp.uploadResult, InterfaceAnalyzerApp.writeFileSync,
    InterfaceAnalyzerApp.fetch, completion, try_catch, call, emit, mbind, prog_bind, bind.
  destruct (convertToList result) as [textResult|e]; simpl; [|done].
  destruct (writeFileSync_completes _ _) as [[]|e]; simpl; [|done].
  destruct (fetch_completes _ _) as [response|e]; simpl; [|done].
  destruct (json response) as [data|e]; simpl; [|done].
  destruct (get_prop data "success") as [success|e] eqn:Hs; simpl; [|done].
  destruct (truthy success); simpl; [|done].
  destruct (get_prop data "id") as [id|e]; simpl; done.
Qed.

Lemma run_trace_and_completion config result :
  initialize = Normal tt →
  updateConfig config = Normal tt →
  analyzeDirectory config = Normal result →
  writeFileSync_completes (outputFilePath cwd path_join config)
    (stringify_indented _ result) = Normal tt →
  trace (run config) =
    [console_log [LStr "正在扫描目录: "; LStr (dirPath config)];
     fs_writeFileSync (outputFilePath cwd path_join config) (stringify_indented _ result)]
    ++ (if upload config then
          console_log [LStr "正在上传分析结果到 "; LStr (serverUrl config)]
            :: trace (uploadResult result config)
        else [])
    ++ [console_log [LStr "分析结果已保存到 "; LStr (outputFilePath cwd path_join config)]]
  ∧ completion (run config) = generateLearningMaterials result.
Proof.
  intros Hi Hu Ha Hw.
  pose proof (uploadResult_completes_normally result config) as Hup.
  unfold InterfaceAnalyzerApp.run, InterfaceAnalyzerApp.writeFileSync.
  rewrite Hi, bind_call_Normal, Hu, bind_call_Normal, bind_emit, Ha, bind_call_Normal.
  rewrite Hw, bind_call_Normal, bind_emit.
  destruct (uploadResult result config) as [t c]. unfold completion in Hup.
  simpl in Hup. subst c.
  unfold trace, completion, call, emit, mbind, mret, prog_bind, prog_ret, bind, ret.
  destruct (upload config), (generateLearningMaterials result); simpl; done.
Qed.

Lemma or_default_spec (a : option string) (b : string) :
  or_default a b
    = match a with
      | Some s => if decide (s = EmptyString) then b else s
      | None => b
      end.
Proof.
  destruct a as [s|]; [|done]. simpl.
  destruct (String.eqb_spec s EmptyString); by case_decide.
Qed.

(** C5: when upload is enabled and the scan and the write of the result
    file go through, the result file is written to the configured output
    path, that is the working directory joined with [config.outputJsonFile]
    or, when that option is absent or empty, with analysis_result.json.
    The write happens before the upload starts, and the completion of
    [run] is that of the learning-material step, whatever the
    collaborators of the upload (flattening, debug file, POST, body
    parsing) do: a failed upload never makes [run] throw. *)
Theorem run_writes_result_and_survives_upload_failure config result name :
  upload config = true →
  initialize = Normal tt →
  updateConfig config = Normal tt →
  analyzeDirectory config = Normal result →
  name = match outputJsonFile config with
         | Some file => if decide (file = EmptyString) then "analysis_result.json" else file
         | None => "analysis_result.json"
         end →
  writeFileSync_completes (path_join cwd name) (stringify_indented _ result) = Normal tt →
  fs_writeFileSync (path_join cwd name) (stringify_indented _ result)
    ∈ trace (run config)
  ∧ (∃ after,
       trace (run config) =
         [console_log [LStr "正在扫描目录: "; LStr (dirPath config)];
          fs_writeFileSync (path_join cwd name) (stringify_indented _ result);
          console_log [LStr "正在上传分析结果到 "; LStr (serverUrl config)]]
         ++ trace (uploadResult result config) ++ after)
  ∧ completion (uploadResult result config) = Normal tt
  ∧ completion (run config) = generateLearningMaterials result.
Proof.
  intros Hup Hi Hu Ha Hname Hw.
  assert (path_join cwd name = outputFilePath cwd path_join config) as Hpath.
  { unfold outputFilePath. by rewrite or_default_spec, Hname. }
  rewrite Hpath in *.
  destruct (run_trace_and_completion config result Hi Hu Ha Hw) as [Ht Hc].
  rewrite Hup in Ht. rewrite Ht, Hc. split; [|split; [|split]].
  - apply list_elem_of_further, list_elem_of_here.
  - eexists. simpl. reflexivity.
  - apply uploadResult_completes_normally.
  - done.
Qed.



End AppProperties.

Lemma run_writes_result_and_survives_upload_failure_witness :
  InterfaceAnalyzerApp.upload Examples.named_upload_config = true
  ∧ InterfaceAnalyzerApp.outputJsonFile Examples.named_upload_config = Some "scan.json"
  ∧ Effects.fs_writeFileSync (Examples.join_paths "/work" "scan.json") "{ }"
      ∈ Effects.trace (Examples.app_run_named Examples.unreachable)
  ∧ Effects.completion (Examples.app_run_named Examples.unreachable) = Js.Normal tt
  ∧ InterfaceAnalyzerApp.outputJsonFile Examples.upload_config = None
  ∧ Effects.fs_writeFileSync (Examples.join_paths "/work" "analysis_result.json") "{ }"
      ∈ Effects.trace (Examples.app_run Examples.unreachable).
Proof.
  pose proof (run_writes_result_and_survives_upload_failure (TextResult := unit)
    "/work" Examples.join_paths (λ _ _, "{ }") (λ _ _, "{}") (Js.Normal tt)
    (λ _, Js.Normal tt) (λ _, Js.Normal tt) (λ _, Js.Normal tt) (λ _, Js.Normal tt)
    (λ _ _, Js.Normal tt) Examples.unreachable Examples.named_upload_config tt
    "scan.json" eq_refl eq_refl eq_refl eq_refl eq_refl eq_refl) as (Hw & _ & _ & Hc).
  pose proof (run_writes_result_and_survives_upload_failure (TextResult := unit)
    "/work" Examples.join_paths (λ _ _, "{ }") (λ _ _, "{}") (Js.Normal tt)
    (λ _, Js.Normal tt) (λ _, Js.Normal tt) (λ _, Js.Normal tt) (λ _, Js.Normal tt)
    (λ _ _, Js.Normal tt) Examples.unreachable Examples.upload_config tt
    "analysis_result.json" eq_refl eq_refl eq_refl eq_refl eq_refl eq_refl)
    as (Hw' & _).
  exact (conj eq_refl (conj eq_refl (conj Hw (conj Hc (conj eq_refl Hw'))))).
Defined.

(** The endpoint cannot be reached: the result file is written first,
    then the debug file, the POST is attempted and its failure is logged. *)
Example run_with_unreachable_endpoint :
  Examples.app_run Examples.unreachable =
    ([Effects.console_log [Effects.LStr "正在扫描目录: "; Effects.LStr "/repo"];
      Effects.fs_writeFileSync "/work/analysis_result.json" "{ }";
      Effects.console_log [Effects.LStr "正在上传分析结果到 ";
                           Effects.LStr "http://localhost:3000/api/context"];
      Effects.fs_writeFileSync "/work/debug_analysis_result.json" "{ }";
      Effects.fetch_POST "http://localhost:3000/api/context" "{}";
      Effects.console_error [Effects.LStr "上传过程中发生错误:";
                             Effects.LExn (Js.Error "connect ECONNREFUSED")];
      Effects.console_log [Effects.LStr "分析结果已保存到 ";
                           Effects.LStr "/work/analysis_result.json"]],
     Js.Normal tt).
Proof. reflexivity. Qed.


(** The status 200 with a body whose success field is false: the failure
    is logged with the body. *)
Example uploadResult_logs_failure_on_success_false :
  Examples.app_uploadResult (λ _ _, Js.Normal Examples.ok_status_failure_body)
  = ([Effects.fs_writeFileSync "/work/debug_analysis_result.json" "{ }";
      Effects.fetch_POST "http://localhost:3000/api/context" "{}";
      Effects.console_error
        [Effects.LStr "上传失败:";
         Effects.LVal (Js.Obj [("success", Js.Bool false); ("error", Js.Str "quota")])]],
     Js.Normal tt).
Proof. reflexivity. Qed.

(** ** The concept validator *)

Section ValidatorProperties.
Import Js Effects AiValidator.

Variable reply_completes : string → Completion string.
Variable MarkdownCodeBlock_from : string → Completion (list CodeBlock).
Variable JSON_parse : string → Completion Value.

Local Abbreviation attempt := (attempt reply_completes MarkdownCodeBlock_from JSON_parse).
Local Abbreviation validateConcepts :=
  (validateConcepts reply_completes MarkdownCodeBlock_from JSON_parse).
Local Abbreviation answer_unusable :=
  (answer_unusable reply_completes MarkdownCodeBlock_from JSON_parse).

Lemma validateConcepts_resolves extractedTerms codeContext :
  ∃ r, completion (validateConcepts extractedTerms codeContext) = Normal r.
Proof.
  unfold AiValidator.validateConcepts.
  destruct (length extractedTerms =? 0); [by eexists|].
  destruct (attempt extractedTerms codeContext) as [t [r|e]].
  - by exists r.
  - rewrite try_catch_Throw. by eexists.
Qed.

Lemma validateConcepts_falls_back extractedTerms codeContext e :
  extractedTerms ≠ [] →
  completion (attempt extractedTerms codeContext) = Throw e →
  completion (validateConcepts extractedTerms codeContext) = Normal (all_valid extractedTerms)
  ∧ trace (validateConcepts extractedTerms codeContext) =
      trace (attempt extractedTerms codeContext)
      ++ [console_error [LStr "Error validating concepts with AI:"; LExn e]].
Proof.
  intros Hne He. unfold AiValidator.validateConcepts.
  destruct extractedTerms as [|x xs]; [done|]. simpl length. simpl Nat.eqb.
  destruct (attempt (x :: xs) codeContext) as [t c]. simpl in He. subst c.
  rewrite try_catch_Throw. done.
Qed.

Lemma answer_unusable_throws extractedTerms codeContext e :
  answer_unusable extractedTerms codeContext e →
  completion (attempt extractedTerms codeContext) = Throw e.
Proof.
  unfold AiValidator.attempt, AiValidator.reply.
  intros [e' H1|text e' H1 H2|text e' H1 H2 H3|text b blocks e' H1 H2 H3];
    rewrite bind_emit, H1; unfold call at 1 2, trace at 1, completion at 2;
    simpl fst; simpl snd.
  - reflexivity.
  - rewrite bind_Normal, H2. reflexivity.
  - rewrite bind_Normal, H2, bind_call_Normal, H3. reflexivity.
  - rewrite bind_Normal, H2, bind_call_Normal. simpl first_code.
    rewrite bind_call_Normal, H3. reflexivity.
Qed.

(** C9: [validateConcepts] resolves for every input.  With no extracted
    terms it returns two empty lists and the AI is not invoked; when the
    AI call, the extraction of the code block or the parsing of the answer
    throws (or anything else inside the [try] block does), it returns all
    extracted terms as valid and no invalid concept. *)
Theorem validateConcepts_never_rejects extractedTerms codeContext :
  (∃ r, completion (validateConcepts extractedTerms codeContext) = Normal r)
  ∧ (extractedTerms = [] →
       validateConcepts extractedTerms codeContext
         = ([], Normal {| validConcepts := []; invalidConcepts := [] |})
       ∧ ¬ invokes_AI (trace (validateConcepts extractedTerms codeContext)))
  ∧ (extractedTerms ≠ [] →
       ∀ e, answer_unusable extractedTerms codeContext e
            ∨ completion (attempt extractedTerms codeContext) = Throw e →
       completion (validateConcepts extractedTerms codeContext)
         = Normal {| validConcepts := Str <$> extractedTerms; invalidConcepts := [] |}).
Proof.
  split; [apply validateConcepts_resolves|]. split.
  - intros ->. split; [reflexivity|].
    intros [content H]. by apply elem_of_nil in H.
  - intros Hne e [H|H].
    + apply answer_unusable_throws in H.
      by destruct (validateConcepts_falls_back extractedTerms codeContext e Hne H).
    + by destruct (validateConcepts_falls_back extractedTerms codeContext e Hne H).
Qed.

End ValidatorProperties.

Lemma validateConcepts_never_rejects_witness :
  (Effects.completion
     (AiValidator.validateConcepts Examples.ai_answer Examples.one_block
        Examples.parser_rejects ["Invoice"; "loop"] "class Invoice {}")
   = Js.Normal {| AiValidator.validConcepts := [Js.Str "Invoice"; Js.Str "loop"];
                  AiValidator.invalidConcepts := [] |})
  ∧ (AiValidator.validateConcepts Examples.ai_answer Examples.one_block
       Examples.parser_rejects [] "class Invoice {}"
     = ([], Js.Normal {| AiValidator.validConcepts := [];
                         AiValidator.invalidConcepts := [] |})).
Proof.
  split.
  - refine (proj2 (proj2 (validateConcepts_never_rejects Examples.ai_answer
      Examples.one_block Examples.parser_rejects ["Invoice"; "loop"] "class Invoice {}"))
      _ (Js.SyntaxError "Unexpected token") (or_introl _)).
    + discriminate.
    + eapply (AiValidator.parsing_throws _ _ _ _ _ "```json { } ```"
                (AiValidator.Build_CodeBlock "{ }") []); reflexivity.
  - exact (proj1 (proj1 (proj2 (validateConcepts_never_rejects Examples.ai_answer
      Examples.one_block Examples.parser_rejects [] "class Invoice {}")) eq_refl)).
Defined.

(** A usable answer: the verdicts are split by the truthiness of
    [isValid], in the order of the answer. *)
Example validateConcepts_splits_verdicts :
  Effects.completion
    (AiValidator.validateConcepts Examples.ai_answer Examples.one_block
       Examples.parsed_verdicts ["Invoice"; "loop"] "class Invoice {}")
  = Js.Normal
      {| AiValidator.validConcepts := [Js.Str "Invoice"];
         AiValidator.invalidConcepts :=
           [AiValidator.Build_InvalidConcept (Js.Str "loop") (Js.Str "generic term")] |}.
Proof. reflexivity. Qed.

(** An answer whose [results] is not an array throws inside the [try]
    block and ends in the fallback as well. *)
Example validateConcepts_results_not_array :
  Effects.completion
    (AiValidator.validateConcepts Examples.ai_answer Examples.one_block
       (λ _, Js.Normal (Js.Obj [("results", Js.Str "none")]))
       ["Invoice"] "class Invoice {}")
  = Js.Normal {| AiValidator.validConcepts := [Js.Str "Invoice"];
                 AiValidator.invalidConcepts := [] |}.
Proof. reflexivity. Qed.

(** ** The MCP server wrapper *)

Section ServerProperties.
Import Js MCPServer.

Ltac run_method :=
  unfold serveHttp, serveStdio, destroy, ensureDestroyed, ensureExpressApp,
    ensureMcpHttpTransportSessions, ensureMcpStdioTransport,
    set_expressApp, set_mcpHttpTransportSessions, set_managedHttpServer,
    set_mcpStdioTransport, set_isDestroyed, installHooks,
    read, write, emit, fresh, throw, mbind, mret, M_bind, M_ret;
  simpl.

Lemma new_MCPServerImpl_marked i : still_marked_destroyed (new_MCPServerImpl i).
Proof.
  split; [reflexivity|]. unfold new_MCPServerImpl. run_method.
  repeat constructor.
Qed.

Lemma ensureDestroyed_passes s :
  isDestroyed (this s) = true → ensureDestroyed s = (Normal tt, s).
Proof. intros H. run_method. by rewrite H. Qed.

Lemma destroy_returns_at_once s :
  isDestroyed (this s) = true → destroy s = (Normal tt, s).
Proof. intros H. run_method. by rewrite H. Qed.

Lemma valid_port_spec port : valid_port port = true ↔ (0 ≤ port ≤ 65535)%Z.
Proof. unfold valid_port. rewrite andb_true_iff, !Z.leb_le. done. Qed.

Lemma serveHttp_completes options s :
  still_marked_destroyed s →
  (serveHttp options s).1
    = (if valid_port (port options) then Normal tt
       else Throw (RangeError "options.port should be >= 0 and < 65536"))
  ∧ still_marked_destroyed (serveHttp options s).2.
Proof.
  destruct s as [[i st ss ms ea d] ev nr]. intros [Hd Hev]. simpl in Hd, Hev. subst d.
  unfold still_marked_destroyed. run_method. unfold listen. run_method.
  destruct ea as [app|], ss as [sessions|], ms as [server|],
    (valid_port (port options)); simpl;
    (split; [reflexivity|]); (split; [reflexivity|]);
    rewrite ?Forall_app; repeat split; try done; repeat constructor.
Qed.

Lemma serveStdio_completes s :
  still_marked_destroyed s →
  (serveStdio s).1 = Normal tt ∧ still_marked_destroyed (serveStdio s).2.
Proof.
  destruct s as [[i st ss ms ea d] ev nr]. intros [Hd Hev]. simpl in Hd, Hev. subst d.
  unfold still_marked_destroyed. run_method.
  destruct st as [t|]; simpl;
    (split; [reflexivity|]); (split; [reflexivity|]);
    rewrite ?Forall_app; repeat split; try done; repeat constructor.
Qed.

Lemma invoke_completes c s :
  still_marked_destroyed s → still_marked_destroyed (invoke c s).2.
Proof.
  intros H. destruct c as [options| |]; simpl.
  - by apply serveHttp_completes.
  - by apply serveStdio_completes.
  - rewrite destroy_returns_at_once by apply H. done.
Qed.

Lemma invoke_all_marked cs s :
  still_marked_destroyed s → still_marked_destroyed (invoke_all cs s).
Proof.
  revert s. induction cs as [|c cs IH]; intros s H; simpl; [done|].
  by apply IH, invoke_completes.
Qed.

End ServerProperties.

(** C10: the flag [isDestroyed] is true once the object is constructed and
    after every sequence of calls of [serveHttp], [serveStdio] and
    [destroy], whether they complete or throw.  Hence, in every state so
    reached, [ensureDestroyed] returns without throwing; [serveHttp] is
    never refused as still running: it completes normally for a port that
    [listen] accepts, and the one error it can throw is the RangeError of
    [listen] for a port outside 0..65535; [serveStdio] completes normally;
    and [destroy] returns at once and leaves the object and the world as
    they are: the server instance, the managed HTTP server, the session
    table and the stdio transport are not closed or cleared. *)
Theorem isDestroyed_always_true_destroy_does_nothing
    (i : MCPServer.McpImplementation) (calls : list MCPServer.MethodCall) :
  MCPServer.isDestroyed (MCPServer.this (MCPServer.new_MCPServerImpl i)) = true
  ∧ MCPServer.isDestroyed
      (MCPServer.this (MCPServer.invoke_all calls (MCPServer.new_MCPServerImpl i))) = true
  ∧ MCPServer.ensureDestroyed (MCPServer.invoke_all calls (MCPServer.new_MCPServerImpl i))
    = (Js.Normal tt, MCPServer.invoke_all calls (MCPServer.new_MCPServerImpl i))
  ∧ (∀ options,
       (MCPServer.serveHttp options
          (MCPServer.invoke_all calls (MCPServer.new_MCPServerImpl i))).1
         ≠ Js.Throw (Js.Error "MCPServer is still running")
       ∧ ((0 ≤ MCPServer.port options ≤ 65535)%Z →
            (MCPServer.serveHttp options
               (MCPServer.invoke_all calls (MCPServer.new_MCPServerImpl i))).1
              = Js.Normal tt)
       ∧ (¬ (0 ≤ MCPServer.port options ≤ 65535)%Z →
            ∃ message,
              (MCPServer.serveHttp options
                 (MCPServer.invoke_all calls (MCPServer.new_MCPServerImpl i))).1
                = Js.Throw (Js.RangeError message)))
  ∧ (MCPServer.serveStdio
       (MCPServer.invoke_all calls (MCPServer.new_MCPServerImpl i))).1 = Js.Normal tt
  ∧ MCPServer.destroy (MCPServer.invoke_all calls (MCPServer.new_MCPServerImpl i))
    = (Js.Normal tt, MCPServer.invoke_all calls (MCPServer.new_MCPServerImpl i))
  ∧ Forall (λ e, MCPServer.closes_instance_or_transport e = false)
      (MCPServer.events (MCPServer.invoke_all calls (MCPServer.new_MCPServerImpl i))).
Proof.
  pose proof (invoke_all_marked calls _ (new_MCPServerImpl_marked i)) as H.
  split; [reflexivity|]. split; [apply H|].
  split; [apply ensureDestroyed_passes, H|].
  split.
  { intros options.
    destruct (serveHttp_completes options _ H) as [Hc _]. rewrite Hc.
    pose proof (valid_port_spec (MCPServer.port options)) as Hv.
    destruct (MCPServer.valid_port (MCPServer.port options)).
    - split; [discriminate|]. split; [done|]. intros Hn. destruct Hn. by apply Hv.
    - split; [discriminate|]. split; [|by eexists].
      intros Hp. apply Hv in Hp. discriminate. }
  split; [by apply serveStdio_completes|].
  split; [apply destroy_returns_at_once, H|apply H].
Qed.

Lemma isDestroyed_always_true_destroy_does_nothing_witness :
  (0 ≤ 3001 ≤ 65535)%Z
  ∧ (MCPServer.serveHttp (MCPServer.Build_HttpServeOptions 3001 (Some "localhost"))
       (MCPServer.invoke_all Examples.serve_destroy_serve
          (MCPServer.new_MCPServerImpl Examples.mcp_impl))).1 = Js.Normal tt
  ∧ ¬ (0 ≤ 70000 ≤ 65535)%Z
  ∧ ∃ message,
      (MCPServer.serveHttp (MCPServer.Build_HttpServeOptions 70000 None)
         (MCPServer.invoke_all Examples.serve_destroy_serve
            (MCPServer.new_MCPServerImpl Examples.mcp_impl))).1
        = Js.Throw (Js.RangeError message).
Proof.
  assert ((0 ≤ 3001 ≤ 65535)%Z) as Hin by lia.
  assert (¬ (0 ≤ 70000 ≤ 65535)%Z) as Hout by lia.
  destruct (isDestroyed_always_true_destroy_does_nothing Examples.mcp_impl
              Examples.serve_destroy_serve) as (_ & _ & _ & Hserve & _).
  exact (conj Hin (conj
    (proj1 (proj2 (Hserve (MCPServer.Build_HttpServeOptions 3001 (Some "localhost")))) Hin)
    (conj Hout
      (proj2 (proj2 (Hserve (MCPServer.Build_HttpServeOptions 70000 None))) Hout)))).
Defined.

(** The call of [destroy] between the two calls of [serveHttp] closes
    nothing: the first HTTP server is closed by the second [serveHttp], and
    the application, the transport and the flag are as they were. *)
Example served_twice_events :
  MCPServer.events Examples.served_twice =
    [MCPServer.McpServer_new "ctx" "0.1.0";
     MCPServer.McpServer_resource "mcp" "mcp://version";
     MCPServer.McpServer_tool "add"; MCPServer.McpServer_prompt "review-code";
     MCPServer.express_new 0; MCPServer.app_use_json 0;
     MCPServer.app_post 0 "/mcp"; MCPServer.app_get 0 "/mcp";
     MCPServer.app_delete 0 "/mcp"; MCPServer.app_listen 0 3000 None 1;
     MCPServer.McpStdioTransport_new 2; MCPServer.McpServer_connect 2;
     MCPServer.McpServer_connect 2;
     MCPServer.app_post 0 "/mcp"; MCPServer.app_get 0 "/mcp";
     MCPServer.app_delete 0 "/mcp"; MCPServer.http_server_close 1;
     MCPServer.app_listen 0 3001 (Some "localhost") 3]
  ∧ MCPServer.managedHttpServer (MCPServer.this Examples.served_twice) = Some 3
  ∧ MCPServer.expressApp (MCPServer.this Examples.served_twice) = Some 0
  ∧ MCPServer.mcpStdioTransport (MCPServer.this Examples.served_twice) = Some 2
  ∧ MCPServer.isDestroyed (MCPServer.this Examples.served_twice) = true.
Proof. repeat split; vm_compute; reflexivity. Qed.

(** Were the flag ever false, the guard would throw and [destroy] would
    close the instance, the managed server and the transport and clear the
    fields; no sequence of calls reaches such a state. *)
Example destroy_of_a_running_server :
  (MCPServer.ensureDestroyed Examples.running).1
    = Js.Throw (Js.Error "MCPServer is still running")
  ∧ MCPServer.destroy Examples.running
    = (Js.Normal tt,
       MCPServer.Build_State
         (MCPServer.Build_MCPServerImpl (MCPServer.Build_McpImplementation "ctx" "0.1.0")
            None None (Some 1) None true)
         [MCPServer.McpServer_close; MCPServer.http_server_close 1;
          MCPServer.transport_close 2] 3).
Proof. split; reflexivity. Qed.

(** ** The code analyzer *)

Section AnalyzerProperties.
Import CodeAnalyzer.

Variable Tree : Type.
Variable resolve : string → option string.
Variable parse : string → string → FileError + Tree.
Variable structure : string → Tree → list Entity * list FileError.

Local Abbreviation processFile := (processFile Tree resolve parse structure).
Local Abbreviation accumulate := (accumulate Tree resolve parse structure).
Local Abbreviation analyzeDirectory := (analyzeDirectory Tree resolve parse structure).
Local Abbreviation file_fails := (file_fails Tree resolve parse structure).

Lemma processFile_path f : path (processFile f) = file_path f.
Proof.
  unfold CodeAnalyzer.processFile.
  destruct (resolve _) as [lang|]; [|done].
  destruct (parse _ _) as [e|tree]; [done|].
  by destruct (structure _ _) as [ents [|e errs]].
Qed.

Lemma processFile_failed f :
  file_fails f → errors (processFile f) ≠ [] ∧ entities (processFile f) = [].
Proof.
  unfold CodeAnalyzer.processFile.
  intros [H|[(lang & e & H1 & H2)|(lang & tree & ents & e & errs & H1 & H2 & H3)]].
  - by rewrite H.
  - by rewrite H1, H2.
  - by rewrite H1, H2, H3.
Qed.

(** The result of folding the files into an accumulator, field by field. *)
Lemma foldl_accumulate acc files :
  foldl accumulate acc files =
    {| rootDirectory := rootDirectory acc;
       fileResults := fileResults acc ++ (processFile <$> files);
       filesScanned := filesScanned acc + length files;
       filesFailed :=
         filesFailed acc + length (filter (λ r, has_errors r) (processFile <$> files));
       perLanguage :=
         foldl (λ m f, count_language (language (processFile f)) m) (perLanguage acc) files;
       elapsed := elapsed acc |}.
Proof.
  revert acc. induction files as [|f files IH]; intros acc.
  - destruct acc. simpl. by rewrite app_nil_r, !Nat.add_0_r.
  - simpl foldl. rewrite IH. unfold CodeAnalyzer.accumulate at 1 2 3 4 5 6. simpl.
    rewrite <- app_assoc. simpl. f_equal.
    + lia.
    + rewrite filter_cons. destruct (has_errors (processFile f)) eqn:E.
      * rewrite decide_True by done. simpl. by rewrite Nat.add_succ_r.
      * rewrite decide_False by (by intros []). done.
Qed.

(** C3: with an accessible root, [analyzeDirectory] returns a result that
    holds one file result per candidate file, in order.  The result of a
    file is the one it gets when scanned alone, whatever happens to its
    siblings; a file whose resolution, parsing or structuring fails has its
    error recorded in its own result, with no entity.  The scan as a whole
    fails only when the root directory cannot be accessed. *)
Theorem analyzeDirectory_isolates_file_failures rootPath files clock :
  (∃ r, analyzeDirectory rootPath (inr files) clock = inr r
        ∧ (path <$> fileResults r) = (file_path <$> files)
        ∧ filesScanned r = length files
        ∧ filesFailed r = length (filter (λ fr, has_errors fr) (fileResults r))
        ∧ (∀ before f after, files = before ++ f :: after →
             (∀ alone, analyzeDirectory rootPath (inr [f]) clock = inr alone →
                fileResults r !! length before = fileResults alone !! 0)
             ∧ (∃ fr, fileResults r !! length before = Some fr
                      ∧ path fr = file_path f
                      ∧ (file_fails f → errors fr ≠ [] ∧ entities fr = []))))
  ∧ (∀ listing e, analyzeDirectory rootPath listing clock = inl e ↔ listing = inl e).
Proof.
  split.
  - eexists. split; [reflexivity|]. rewrite foldl_accumulate. simpl.
    split; [|split; [lia|split; [done|]]].
    + rewrite <- list_fmap_compose. apply list_fmap_ext. intros _ f _. simpl.
      apply processFile_path.
    + intros before f after ->. split.
      * intros alone [= <-]. simpl.
        rewrite fmap_app, lookup_app_r by (by rewrite length_fmap).
        by rewrite length_fmap, Nat.sub_diag.
      * exists (processFile f). split; [|split].
        -- rewrite fmap_app, lookup_app_r by (by rewrite length_fmap).
           by rewrite length_fmap, Nat.sub_diag.
        -- apply processFile_path.
        -- apply processFile_failed.
  - intros listing e. unfold CodeAnalyzer.analyzeDirectory.
    destruct listing as [e'|fs]; split; intros H; congruence.
Qed.

(** Permutation invariance of the counters. *)
Lemma count_language_comm a b (m : gmap string nat) :
  count_language a (count_language b m) = count_language b (count_language a m).
Proof.
  destruct a as [x|], b as [y|]; simpl; try done.
  destruct (decide (x = y)) as [->|Hne]; [done|].
  rewrite !(lookup_insert_ne m) by done.
  by apply insert_insert_ne.
Qed.

Lemma foldl_count_language_perm (files1 files2 : list SourceFile) :
  files1 ≡ₚ files2 → ∀ m,
  foldl (λ m f, count_language (language (processFile f)) m) m files1
  = foldl (λ m f, count_language (language (processFile f)) m) m files2.
Proof.
  induction 1 as [|f l1 l2 _ IH|f g l|l1 l2 l3 _ IH1 _ IH2]; intros m; simpl.
  - done.
  - apply IH.
  - by rewrite count_language_comm.
  - by rewrite IH1.
Qed.

Lemma NoDup_fmap_eq {A B} (f : A → B) (l : list A) x y :
  NoDup (f <$> l) → x ∈ l → y ∈ l → f x = f y → x = y.
Proof.
  induction l as [|a l IH]; intros Hnd Hx Hy Hf; [by apply elem_of_nil in Hx|].
  rewrite fmap_cons in Hnd. apply NoDup_cons in Hnd as [Ha Hnd].
  apply elem_of_cons in Hx as [->|Hx]; apply elem_of_cons in Hy as [->|Hy].
  - done.
  - destruct Ha. rewrite Hf. by apply list_elem_of_fmap_2.
  - destruct Ha. rewrite <- Hf. by apply list_elem_of_fmap_2.
  - by apply IH.
Qed.

#[local] Instance path_le_trans : Transitive path_le.
Proof. intros a b c. unfold path_le. apply transitivity. Qed.

#[local] Instance path_le_total : Total path_le.
Proof. intros a b. unfold path_le. apply total, _. Qed.

Lemma sorted_results_unique (l1 l2 : list FileStructureResult) :
  NoDup (path <$> l1) → l1 ≡ₚ l2 →
  merge_sort path_le l1 = merge_sort path_le l2.
Proof.
  intros Hnd Hp. apply (Sorted_unique_strong path_le).
  - intros x1 x2 Hx1 Hx2 H12 H21.
    rewrite merge_sort_Permutation in Hx1. rewrite merge_sort_Permutation, <- Hp in Hx2.
    apply (NoDup_fmap_eq path l1); [done..|].
    by apply (anti_symm String.le).
  - apply Sorted_merge_sort, _.
  - apply Sorted_merge_sort, _.
  - by rewrite !merge_sort_Permutation.
Qed.

(** C7: two scans of an unchanged directory under unchanged collaborators
    agree under the ordering policy, whatever order the traversal delivers
    the files in and whatever time each scan takes: both succeed with
    results that are equal once the file results are sorted by path and
    the elapsed time is left out; and an inaccessible root fails both
    scans alike. *)
Theorem analyzeDirectory_idempotent rootPath files1 files2 clock1 clock2 :
  files1 ≡ₚ files2 →
  NoDup (file_path <$> files1) →
  (∃ r1 r2,
     analyzeDirectory rootPath (inr files1) clock1 = inr r1
     ∧ analyzeDirectory rootPath (inr files2) clock2 = inr r2
     ∧ canonical r1 = canonical r2)
  ∧ (∀ e, analyzeDirectory rootPath (inl e) clock1
          = analyzeDirectory rootPath (inl e) clock2).
Proof.
  intros Hp Hnd. split; [|done].
  do 2 eexists. split; [reflexivity|]. split; [reflexivity|].
  rewrite !foldl_accumulate. unfold canonical. simpl. f_equal.
  - apply sorted_results_unique; [|by apply fmap_Permutation].
    rewrite <- list_fmap_compose.
    erewrite list_fmap_ext; [exact Hnd|]. intros _ f _. simpl. apply processFile_path.
  - by rewrite Hp.
  - by rewrite Hp.
  - by apply foldl_count_language_perm.
Qed.

End AnalyzerProperties.

(** A valid file, a file with unbalanced braces and a file of an
    unsupported language: three file results, two of them failed. *)
Example scan_with_two_bad_files :
  ∃ r, Examples.scan [Examples.broken_rs; Examples.point_rs; Examples.notes_txt] 12 = inr r
       ∧ CodeAnalyzer.fileResults r =
           [CodeAnalyzer.Build_FileStructureResult "src/broken.rs" (Some "rust") []
              [CodeAnalyzer.ParseError (Some 13)];
            CodeAnalyzer.Build_FileStructureResult "src/point.rs" (Some "rust")
              [CodeAnalyzer.MkEntity "struct" "Point"
                 [CodeAnalyzer.MkEntity "field" "x" [];
                  CodeAnalyzer.MkEntity "field" "y" []]] [];
            CodeAnalyzer.Build_FileStructureResult "notes.txt" None []
              [CodeAnalyzer.UnsupportedLanguage "txt"]]
       ∧ CodeAnalyzer.filesScanned r = 3
       ∧ CodeAnalyzer.filesFailed r = 2
       ∧ CodeAnalyzer.perLanguage r !! "rust" = Some 2.
Proof. eexists. split; [reflexivity|]. repeat split; vm_compute; reflexivity. Qed.

Lemma analyzeDirectory_isolates_file_failures_witness :
  CodeAnalyzer.file_fails string Examples.resolve_rs Examples.parse_text
    Examples.structure_point Examples.broken_rs
  ∧ ∃ r fr,
      Examples.scan [Examples.broken_rs; Examples.point_rs] 12 = inr r
      ∧ CodeAnalyzer.fileResults r !! 0 = Some fr
      ∧ CodeAnalyzer.errors fr ≠ []
      ∧ CodeAnalyzer.fileResults r !! 1
        = Some (CodeAnalyzer.Build_FileStructureResult "src/point.rs" (Some "rust")
                  [CodeAnalyzer.MkEntity "struct" "Point"
                     [CodeAnalyzer.MkEntity "field" "x" [];
                      CodeAnalyzer.MkEntity "field" "y" []]] []).
Proof.
  assert (CodeAnalyzer.file_fails string Examples.resolve_rs Examples.parse_text
            Examples.structure_point Examples.broken_rs) as Hfail.
  { right. left. exists "rust", (CodeAnalyzer.ParseError (Some 13)). by split. }
  split; [exact Hfail|].
  destruct (analyzeDirectory_isolates_file_failures string Examples.resolve_rs
              Examples.parse_text Examples.structure_point "/repo"
              [Examples.broken_rs; Examples.point_rs] 12)
    as [(r & Hr & _ & _ & _ & Hfiles) _].
  destruct (Hfiles [] Examples.broken_rs [Examples.point_rs] eq_refl)
    as [_ (fr & Hfr & _ & Herr)].
  destruct (Hfiles [Examples.broken_rs] Examples.point_rs [] eq_refl) as [Halone _].
  exists r, fr. split; [exact Hr|]. split; [exact Hfr|]. split; [apply Herr, Hfail|].
  exact (Halone _ eq_refl).
Defined.

Lemma analyzeDirectory_idempotent_witness :
  [Examples.broken_rs; Examples.point_rs; Examples.notes_txt]
    ≡ₚ [Examples.notes_txt; Examples.point_rs; Examples.broken_rs]
  ∧ NoDup (CodeAnalyzer.file_path
             <$> [Examples.broken_rs; Examples.point_rs; Examples.notes_txt])
  ∧ ∃ r1 r2,
      Examples.scan [Examples.broken_rs; Examples.point_rs; Examples.notes_txt] 12 = inr r1
      ∧ Examples.scan [Examples.notes_txt; Examples.point_rs; Examples.broken_rs] 30 = inr r2
      ∧ CodeAnalyzer.canonical r1 = CodeAnalyzer.canonical r2.
Proof.
  assert ([Examples.broken_rs; Examples.point_rs; Examples.notes_txt]
            ≡ₚ [Examples.notes_txt; Examples.point_rs; Examples.broken_rs]) as Hp.
  { etrans; [apply perm_swap|]. etrans; [apply perm_skip, perm_swap|]. apply perm_swap. }
  assert (NoDup (CodeAnalyzer.file_path
                   <$> [Examples.broken_rs; Examples.point_rs; Examples.notes_txt])) as Hnd.
  { apply (bool_decide_unpack _). vm_compute. exact I. }
  split; [exact Hp|]. split; [exact Hnd|].
  exact (proj1 (analyzeDirectory_idempotent string Examples.resolve_rs Examples.parse_text
                  Examples.structure_point "/repo" _ _ 12 30 Hp Hnd)).
Defined.

(** The two scans of the witness differ before the ordering policy is
    applied: the file results come in the order of arrival. *)
Example arrival_order_differs :
  ∃ r1 r2,
    Examples.scan [Examples.broken_rs; Examples.point_rs] 12 = inr r1
    ∧ Examples.scan [Examples.point_rs; Examples.broken_rs] 12 = inr r2
    ∧ CodeAnalyzer.fileResults r1 ≠ CodeAnalyzer.fileResults r2.
Proof. do 2 eexists. split; [reflexivity|]. split; [reflexivity|]. discriminate. Qed.

(** * Further properties *)

(** ** The test-file predicate looks at the last seven characters only *)

Lemma substring_skip_prefix (d p : string) (n m : nat) :
  String.substring (String.length d + n) m (d +:+ p) = String.substring n m p.
Proof. induction d as [|c d IH]; simpl; [done | exact IH]. Qed.

Lemma endsWith_ignores_prefix (d p t : string) :
  String.length t ≤ String.length p →
  Js.endsWith (d +:+ p) t = Js.endsWith p t.
Proof.
  intros Hle. unfold Js.endsWith. rewrite string_length_app.
  destruct (Nat.ltb_spec (String.length d + String.length p) (String.length t)); [lia|].
  destruct (Nat.ltb_spec (String.length p) (String.length t)); [lia|].
  replace (String.length d + String.length p - String.length t)
    with (String.length d + (String.length p - String.length t)) by lia.
  by rewrite substring_skip_prefix.
Qed.

(** X1: the directory part of a path plays no role in [isTestFile]: for a
    file name of at least seven characters the answer for the name with
    any directory in front of it is the answer for the name alone; and a
    path of fewer than seven characters is never a test file. *)
Theorem isTestFile_ignores_directory (dir name : string) :
  (7 ≤ String.length name →
     RustProfile.isTestFile (dir +:+ name) = RustProfile.isTestFile name)
  ∧ (String.length name < 7 → RustProfile.isTestFile name = false).
Proof.
  split.
  - intros H. by apply endsWith_ignores_prefix.
  - intros H. unfold RustProfile.isTestFile, Js.endsWith.
    destruct (Nat.ltb_spec (String.length name) (String.length "test.rs")) as [|Hge];
      [done|]. simpl in Hge. lia.
Qed.

Lemma isTestFile_ignores_directory_witness :
  (7 ≤ String.length "parser.rs"
   ∧ RustProfile.isTestFile ("tests/" +:+ "parser.rs") = RustProfile.isTestFile "parser.rs")
  ∧ (String.length "t.rs" < 7 ∧ RustProfile.isTestFile "t.rs" = false).
Proof.
  assert (7 ≤ String.length "parser.rs") as H1 by (simpl; lia).
  assert (String.length "t.rs" < 7) as H2 by (simpl; lia).
  exact (conj (conj H1 (proj1 (isTestFile_ignores_directory "tests/" "parser.rs") H1))
              (conj H2 (proj2 (isTestFile_ignores_directory "tests/" "t.rs") H2))).
Defined.

(** ** The analyzer application: order of effects *)

Section AppEffects.
Import Js Effects InterfaceAnalyzerApp.

Context {CodeAnalysisResult TextResult : Type}.
Variable cwd : string.
Variable path_join : string → string → string.
Variable stringify_indented stringify : ∀ A : Type, A → string.
Variable initialize : Completion unit.
Variable updateConfig : AppConfig → Completion unit.
Variable analyzeDirectory : AppConfig → Completion CodeAnalysisResult.
Variable convertToList : CodeAnalysisResult → Completion TextResult.
Variable generateLearningMaterials : CodeAnalysisResult → Completion unit.
Variable writeFileSync_completes : string → string → Completion unit.
Variable fetch_completes : string → string → Completion Response.

Local Abbreviation uploadResult :=
  (uploadResult CodeAnalysisResult TextResult cwd path_join stringify_indented stringify
     convertToList writeFileSync_completes fetch_completes).
Local Abbreviation run :=
  (run CodeAnalysisResult TextResult cwd path_join stringify_indented stringify
     initialize updateConfig analyzeDirectory convertToList generateLearningMaterials
     writeFileSync_completes fetch_completes).
Local Abbreviation outputFilePath := (outputFilePath cwd path_join).

Ltac run_prog :=
  unfold trace, completion, try_catch, call, emit, mbind, mret, prog_bind, prog_ret,
    bind, ret; simpl.

(** X2: with upload disabled the calls that [run] itself makes stay
    local.  Whatever the methods of the analyzer, the file system and the
    network complete with, [run] calls [fetch] never, and the one call of
    [fs.writeFileSync] it can make writes the indented result of the
    analysis to the working directory joined with [config.outputJsonFile],
    or with analysis_result.json when that option is absent or empty.
    (What the methods of the analyzer do inside is not part of the
    trace.) *)
Theorem run_without_upload_stays_local config :
  upload config = false →
  (∀ url body, fetch_POST url body ∉ trace (run config))
  ∧ (∀ p data, fs_writeFileSync p data ∈ trace (run config) →
       ∃ result,
         analyzeDirectory config = Normal result
         ∧ p = path_join cwd
                 (match outputJsonFile config with
                  | Some file =>
                      if decide (file = EmptyString) then "analysis_result.json" else file
                  | None => "analysis_result.json"
                  end)
         ∧ data = stringify_indented _ result).
Proof.
  intros Hup. unfold InterfaceAnalyzerApp.run, InterfaceAnalyzerApp.writeFileSync,
    InterfaceAnalyzerApp.outputFilePath.
  rewrite Hup, or_default_spec. run_prog.
  destruct initialize as [[]|e0]; simpl.
  2: { split; [intros url body H|intros p data H]; not_in_trace H. }
  destruct (updateConfig config) as [[]|e1]; simpl.
  2: { split; [intros url body H|intros p data H]; not_in_trace H. }
  destruct (analyzeDirectory config) as [result|e2]; simpl.
  2: { split; [intros url body H|intros p data H]; not_in_trace H. }
  destruct (writeFileSync_completes _ _) as [[]|e3]; simpl.
  2: { split; [intros url body H|intros p data H]; not_in_trace H. }
  destruct (generateLearningMaterials result) as [[]|e4]; simpl.
  all: split; [intros url body H; not_in_trace H|].
  all: intros p data H; apply elem_of_cons in H as [H|H]; [discriminate H|].
  all: apply elem_of_cons in H as [H|H]; [|not_in_trace H].
  all: injection H as -> ->; by exists result.
Qed.

(** X3: [run] fails fast.  When the analysis throws, or the write of the
    result file throws, [run] rejects with that error after the scanning
    message alone: no debug file, no request and no saved message follow,
    also when upload is enabled. *)
Theorem run_rejects_before_upload config e :
  initialize = Normal tt →
  updateConfig config = Normal tt →
  analyzeDirectory config = Throw e
  ∨ (∃ result, analyzeDirectory config = Normal result
               ∧ writeFileSync_completes (outputFilePath config)
                   (stringify_indented _ result) = Throw e) →
  run config = ([console_log [LStr "正在扫描目录: "; LStr (dirPath config)]], Throw e).
Proof.
  intros Hi Hu [Ha|(result & Ha & Hw)];
    unfold InterfaceAnalyzerApp.run, InterfaceAnalyzerApp.writeFileSync;
    rewrite Hi, bind_call_Normal, Hu, bind_call_Normal, bind_emit, Ha.
  - reflexivity.
  - rewrite bind_call_Normal, Hw. reflexivity.
Qed.

(** X4: [uploadResult] sends at most one request, and only after the debug
    file is written.  If a POST occurs in its trace, the flattening
    succeeded, the trace starts with the write of the indented flattened
    result to debug_analysis_result.json under the working directory, the
    POST comes next, goes to [config.serverUrl] with the compact form of
    the same flattened result as body, and no other POST follows. *)
Theorem uploadResult_posts_once_after_debug_file result config url body :
  fetch_POST url body ∈ trace (uploadResult result config) →
  ∃ textResult rest,
    convertToList result = Normal textResult
    ∧ url = serverUrl config
    ∧ body = stringify _ textResult
    ∧ trace (uploadResult result config) =
        fs_writeFileSync (path_join cwd "debug_analysis_result.json")
          (stringify_indented _ textResult)
        :: fetch_POST url body :: rest
    ∧ ∀ url' body', fetch_POST url' body' ∉ rest.
Proof.
  unfold InterfaceAnalyzerApp.uploadResult, InterfaceAnalyzerApp.writeFileSync,
    InterfaceAnalyzerApp.fetch. run_prog.
  destruct (convertToList result) as [textResult|e]; simpl.
  2: { intros H. not_in_trace H. }
  destruct (writeFileSync_completes _ _) as [[]|e]; simpl.
  2: { intros H. not_in_trace H. }
  intros H. exists textResult.
  assert (url = serverUrl config ∧ body = stringify TextResult textResult) as [-> ->].
  { destruct (fetch_completes _ _) as [response|e]; simpl in H.
    2: { apply elem_of_cons in H as [H|H]; [discriminate H|].
         apply elem_of_cons in H as [H|H]; [by injection H|not_in_trace H]. }
    destruct (json response) as [data|e]; simpl in H.
    2: { apply elem_of_cons in H as [H|H]; [discriminate H|].
         apply elem_of_cons in H as [H|H]; [by injection H|not_in_trace H]. }
    destruct (get_prop data "success") as [success|e]; simpl in H.
    2: { apply elem_of_cons in H as [H|H]; [discriminate H|].
         apply elem_of_cons in H as [H|H]; [by injection H|not_in_trace H]. }
    destruct (truthy success); simpl in H.
    2: { apply elem_of_cons in H as [H|H]; [discriminate H|].
         apply elem_of_cons in H as [H|H]; [by injection H|not_in_trace H]. }
    destruct (get_prop data "id") as [id|e]; simpl in H.
    all: apply elem_of_cons in H as [H|H]; [discriminate H|].
    all: apply elem_of_cons in H as [H|H]; [by injection H|not_in_trace H]. }
  clear H.
  destruct (fetch_completes _ _) as [response|e]; simpl.
  2: { eexists. repeat split. intros url' body' H. not_in_trace H. }
  destruct (json response) as [data|e]; simpl.
  2: { eexists. repeat split. intros url' body' H. not_in_trace H. }
  destruct (get_prop data "success") as [success|e]; simpl.
  2: { eexists. repeat split. intros url' body' H. not_in_trace H. }
  destruct (truthy success); simpl.
  2: { eexists. repeat split. intros url' body' H. not_in_trace H. }
  destruct (get_prop data "id") as [id|e]; simpl.
  all: eexists; repeat split; intros url' body' H; not_in_trace H.
Qed.

(** X5: the two failure logs of [uploadResult].  A body that is not null
    and whose success field is falsy is logged, itself, as an upload
    failure; a null body is not: reading its success field throws, and
    the catch block logs that TypeError as an error during the upload. *)
Theorem uploadResult_failure_logs result config data :
  response_body CodeAnalysisResult TextResult cwd path_join stringify_indented
    stringify convertToList writeFileSync_completes fetch_completes result config
    = Some data →
  body_reports_success data = false →
  ∃ textResult last,
    convertToList result = Normal textResult
    ∧ trace (uploadResult result config) =
        [fs_writeFileSync (path_join cwd "debug_analysis_result.json")
           (stringify_indented _ textResult);
         fetch_POST (serverUrl config) (stringify _ textResult);
         last]
    ∧ (data = Null →
         ∃ message, last = console_error [LStr "上传过程中发生错误:";
                                          LExn (TypeError message)])
    ∧ (data ≠ Null → data ≠ Undefined →
         last = console_error [LStr "上传失败:"; LVal data]).
Proof.
  unfold response_body, body_reports_success, InterfaceAnalyzerApp.uploadResult,
    InterfaceAnalyzerApp.writeFileSync, InterfaceAnalyzerApp.fetch. run_prog.
  destruct (convertToList result) as [textResult|e]; simpl; [|done].
  destruct (writeFileSync_completes _ _) as [[]|e]; simpl; [|done].
  destruct (fetch_completes _ _) as [response|e]; simpl; [|done].
  destruct (json response) as [data'|e]; simpl; [|done].
  intros [= ->] Hs. exists textResult.
  destruct data; simpl in *; try rewrite Hs;
    eexists; (split; [done|]); (split; [reflexivity|]);
    split; try done; intros _; by eexists.
Qed.

End AppEffects.

Lemma run_without_upload_stays_local_witness :
  InterfaceAnalyzerApp.upload Examples.local_config = false
  ∧ Effects.trace (Examples.app_run_local Examples.unreachable)
    = [Effects.console_log [Effects.LStr "正在扫描目录: "; Effects.LStr "/repo"];
       Effects.fs_writeFileSync "/work/out.json" "{ }";
       Effects.console_log [Effects.LStr "分析结果已保存到 ";
                            Effects.LStr "/work/out.json"]]
  ∧ ∀ url body,
      Effects.fetch_POST url body ∉ Effects.trace (Examples.app_run_local Examples.unreachable).
Proof.
  exact (conj eq_refl (conj eq_refl
    (proj1 (run_without_upload_stays_local (TextResult := unit)
      "/work" Examples.join_paths (λ _ _, "{ }") (λ _ _, "{}") (Js.Normal tt)
      (λ _, Js.Normal tt) (λ _, Js.Normal tt) (λ _, Js.Normal tt) (λ _, Js.Normal tt)
      (λ _ _, Js.Normal tt) Examples.unreachable Examples.local_config eq_refl)))).
Defined.

Lemma run_rejects_before_upload_witness :
  InterfaceAnalyzerApp.run unit unit "/work" Examples.join_paths
    (λ _ _, "{ }") (λ _ _, "{}") (Js.Normal tt) (λ _, Js.Normal tt)
    (λ _, Js.Normal tt) (λ _, Js.Normal tt) (λ _, Js.Normal tt)
    Examples.read_only_disk Examples.unreachable Examples.upload_config
  = ([Effects.console_log [Effects.LStr "正在扫描目录: "; Effects.LStr "/repo"]],
     Js.Throw (Js.Error "EROFS: read-only file system")).
Proof.
  exact (run_rejects_before_upload (TextResult := unit)
    "/work" Examples.join_paths (λ _ _, "{ }") (λ _ _, "{}") (Js.Normal tt)
    (λ _, Js.Normal tt) (λ _, Js.Normal tt) (λ _, Js.Normal tt) (λ _, Js.Normal tt)
    Examples.read_only_disk Examples.unreachable Examples.upload_config
    (Js.Error "EROFS: read-only file system") eq_refl eq_refl
    (or_intror (ex_intro _ tt (conj eq_refl eq_refl)))).
Defined.

Lemma uploadResult_posts_once_after_debug_file_witness :
  Effects.fetch_POST "http://localhost:3000/api/context" "{}"
    ∈ Effects.trace (Examples.app_uploadResult Examples.unreachable)
  ∧ ∃ rest,
      Effects.trace (Examples.app_uploadResult Examples.unreachable)
      = Effects.fs_writeFileSync (Examples.join_paths "/work" "debug_analysis_result.json")
          "{ }"
        :: Effects.fetch_POST "http://localhost:3000/api/context" "{}" :: rest.
Proof.
  assert (Effects.fetch_POST "http://localhost:3000/api/context" "{}"
            ∈ Effects.trace (Examples.app_uploadResult Examples.unreachable)) as Hin.
  { apply list_elem_of_further, list_elem_of_here. }
  split; [exact Hin|].
  destruct (uploadResult_posts_once_after_debug_file (CodeAnalysisResult := unit)
              "/work" Examples.join_paths (λ _ _, "{ }") (λ _ _, "{}")
              (λ _, Js.Normal tt) (λ _ _, Js.Normal tt) Examples.unreachable
              tt Examples.upload_config _ _ Hin)
    as (textResult & rest & _ & _ & _ & Ht & _).
  exists rest. exact Ht.
Defined.

Lemma uploadResult_failure_logs_witness :
  InterfaceAnalyzerApp.body_reports_success Js.Null = false
  ∧ ∃ last message,
      Effects.trace (Examples.app_uploadResult (λ _ _, Js.Normal Examples.null_body))
      = [Effects.fs_writeFileSync (Examples.join_paths "/work" "debug_analysis_result.json")
           "{ }";
         Effects.fetch_POST "http://localhost:3000/api/context" "{}";
         last]
      ∧ last = Effects.console_error [Effects.LStr "上传过程中发生错误:";
                                      Effects.LExn (Js.TypeError message)].
Proof.
  split; [reflexivity|].
  destruct (uploadResult_failure_logs (CodeAnalysisResult := unit)
              "/work" Examples.join_paths (λ _ _, "{ }") (λ _ _, "{}")
              (λ _, Js.Normal tt) (λ _ _, Js.Normal tt)
              (λ _ _, Js.Normal Examples.null_body)
              tt Examples.upload_config Js.Null eq_refl eq_refl)
    as (textResult & last & _ & Ht & Hnull & _).
  destruct (Hnull eq_refl) as [message Hlast].
  exists last, message. split; [exact Ht|exact Hlast].
Defined.

(** ** The concept validator: what is returned and what is logged *)

Section ValidatorVerdicts.
Import Js Effects AiValidator Verdicts.

Variable reply_completes : string → Completion string.
Variable MarkdownCodeBlock_from : string → Completion (list CodeBlock).
Variable JSON_parse : string → Completion Value.

Local Abbreviation attempt := (attempt reply_completes MarkdownCodeBlock_from JSON_parse).
Local Abbreviation validateConcepts :=
  (validateConcepts reply_completes MarkdownCodeBlock_from JSON_parse).

Local Abbreviation answered :=
  (answered reply_completes MarkdownCodeBlock_from JSON_parse).

Lemma reply_bind {B} content (k : string → Prog B) :
  (reply reply_completes content ≫= k) =
    match reply_completes content with
    | Normal text => (reply_user content :: trace (k text), completion (k text))
    | Throw e => ([reply_user content], Throw e)
    end.
Proof.
  unfold reply, trace, completion, call, emit, mbind, prog_bind, bind.
  destruct (reply_completes content) as [text|e]; simpl; [|done].
  by destruct (k text).
Qed.

Lemma get_prop_readable v k : readable v → get_prop v k = Normal (field k v).
Proof. intros [H1 H2]. by destruct v. Qed.

Lemma classify_readable acc v :
  readable v →
  classify acc v =
    ([], Normal (if accepted v
                 then {| validConcepts := validConcepts acc ++ [field "term" v];
                         invalidConcepts := invalidConcepts acc |}
                 else {| validConcepts := validConcepts acc;
                         invalidConcepts := invalidConcepts acc
                           ++ [{| term := field "term" v; reason := field "reason" v |}] |})).
Proof.
  intros H. unfold classify, accepted.
  rewrite !(get_prop_readable v) by done. rewrite bind_call_Normal.
  destruct (truthy (field "isValid" v)); by rewrite !bind_call_Normal.
Qed.

Lemma forEach_readable items acc :
  Forall readable items →
  forEach items acc =
    ([], Normal {| validConcepts := validConcepts acc ++ valid_terms items;
                   invalidConcepts := invalidConcepts acc ++ invalid_terms items |}).
Proof.
  unfold valid_terms, invalid_terms.
  intros H. revert acc. induction H as [|v items Hv _ IH]; intros acc.
  - simpl. destruct acc. by rewrite !app_nil_r.
  - simpl forEach. rewrite classify_readable by done. rewrite bind_Normal.
    rewrite IH. unfold trace, completion. simpl fst. simpl snd.
    rewrite !filter_cons. destruct (accepted v) eqn:E.
    + rewrite decide_True by done. rewrite decide_False by (intros HH; by apply HH).
      simpl. by rewrite <- app_assoc.
    + rewrite decide_False by (by intros []). rewrite decide_True by (by intros []).
      simpl. by rewrite <- app_assoc.
Qed.

Lemma forEach_unreadable items acc v :
  v ∈ items → ¬ readable v → ∃ e, completion (forEach items acc) = Throw e.
Proof.
  intros Hin Hv. revert acc. induction items as [|w items IH]; intros acc.
  - by apply elem_of_nil in Hin.
  - simpl forEach. destruct (classify acc w) as [t [acc'|e]] eqn:Hc.
    + rewrite bind_Normal. apply elem_of_cons in Hin as [<-|Hin].
      * exfalso. apply Hv. unfold classify in Hc.
        split; intros ->; simpl in Hc; discriminate.
      * destruct (IH Hin acc') as [e He]. exists e. exact He.
    + by exists e.
Qed.

Lemma attempt_answered extractedTerms codeContext items :
  answered extractedTerms codeContext items →
  attempt extractedTerms codeContext =
    (reply_user (prompt extractedTerms codeContext)
       :: trace (forEach items {| validConcepts := []; invalidConcepts := [] |}),
     completion (forEach items {| validConcepts := []; invalidConcepts := [] |})).
Proof.
  intros (text & b & blocks & response & H1 & H2 & H3 & H4).
  unfold AiValidator.attempt.
  rewrite reply_bind, H1, H2, bind_call_Normal. simpl first_code.
  rewrite bind_call_Normal, H3, bind_call_Normal, H4, bind_call_Normal.
  simpl forEach_items. by rewrite bind_call_Normal.
Qed.

Lemma verdicts_length items :
  length (valid_terms items) + length (invalid_terms items) = length items.
Proof.
  unfold valid_terms, invalid_terms. rewrite !length_fmap.
  induction items as [|v items IH]; [done|].
  rewrite !filter_cons. destruct (accepted v).
  - rewrite decide_True by done. rewrite decide_False by (intros HH; by apply HH).
    simpl. lia.
  - rewrite decide_False by (by intros []). rewrite decide_True by (by intros []).
    simpl. lia.
Qed.

(** X6: a usable answer is split, not filtered against the input.  When
    the list of terms is not empty and the answer parses to an object
    whose results is an array without null entries, [validateConcepts]
    calls the AI once, logs nothing, and returns the [term] of every entry
    with a truthy [isValid] as valid and the [term] and [reason] of every
    other entry as invalid, each list in the order of the answer: every
    entry lands in exactly one list, whether or not its term was among the
    extracted terms. *)
Theorem validateConcepts_splits_answer extractedTerms codeContext items :
  extractedTerms ≠ [] →
  answered extractedTerms codeContext items →
  Forall readable items →
  validateConcepts extractedTerms codeContext =
    ([reply_user (prompt extractedTerms codeContext)],
     Normal {| validConcepts := valid_terms items;
               invalidConcepts := invalid_terms items |})
  ∧ length (valid_terms items) + length (invalid_terms items) = length items.
Proof.
  intros Hne Ha Hr. split; [|apply verdicts_length].
  unfold AiValidator.validateConcepts.
  destruct extractedTerms as [|x xs]; [done|]. simpl length. simpl Nat.eqb.
  rewrite (attempt_answered _ _ _ Ha), forEach_readable by done.
  reflexivity.
Qed.

(** X7: one null entry spoils the whole answer.  When the array of
    verdicts contains null, reading its [isValid] throws inside the loop,
    the entries classified before it are dropped with the rest, and all
    extracted terms are returned as valid. *)
Theorem validateConcepts_null_entry_discards_answer extractedTerms codeContext items :
  extractedTerms ≠ [] →
  answered extractedTerms codeContext items →
  Null ∈ items →
  completion (validateConcepts extractedTerms codeContext)
    = Normal {| validConcepts := Str <$> extractedTerms; invalidConcepts := [] |}.
Proof.
  intros Hne Ha Hin.
  destruct (forEach_unreadable items {| validConcepts := []; invalidConcepts := [] |}
              Null Hin) as [e He].
  { intros [H _]. by apply H. }
  unfold AiValidator.validateConcepts.
  destruct extractedTerms as [|x xs]; [done|]. simpl length. simpl Nat.eqb.
  rewrite (attempt_answered _ _ _ Ha), He, try_catch_Throw. reflexivity.
Qed.

Lemma classify_trace acc v : trace (classify acc v) = [].
Proof.
  unfold classify, trace, call, mbind, mret, prog_bind, prog_ret, bind, ret.
  destruct (get_prop v "isValid") as [i|e]; simpl; [|done].
  destruct (truthy i); destruct (get_prop v "term") as [tm|e]; simpl; try done.
  by destruct (get_prop v "reason").
Qed.

Lemma forEach_trace items acc : trace (forEach items acc) = [].
Proof.
  revert acc. induction items as [|v items IH]; intros acc; [done|].
  simpl forEach. pose proof (classify_trace acc v) as Hc.
  destruct (classify acc v) as [t [acc'|e]]; simpl in Hc; subst t; [|done].
  rewrite bind_Normal. unfold trace at 1. simpl. apply IH.
Qed.

Lemma attempt_trace extractedTerms codeContext :
  trace (attempt extractedTerms codeContext)
    = [reply_user (prompt extractedTerms codeContext)].
Proof.
  unfold AiValidator.attempt. rewrite reply_bind.
  destruct (reply_completes _) as [text|e]; [|done].
  unfold trace at 1. simpl fst. f_equal.
  unfold trace, call, mbind, prog_bind, bind.
  destruct (MarkdownCodeBlock_from text) as [blocks|e]; simpl; [|done].
  destruct (first_code blocks) as [source|e]; simpl; [|done].
  destruct (JSON_parse source) as [response|e]; simpl; [|done].
  destruct (get_prop response "results") as [results|e]; simpl; [|done].
  destruct (forEach_items results) as [items|e]; simpl; [|done].
  pose proof (forEach_trace items {| validConcepts := []; invalidConcepts := [] |}) as H.
  by destruct (forEach items _).
Qed.

(** X8: for a list of terms that is not empty the AI is called exactly
    once, with the prompt built from the terms and the context, and there
    is no retry.  Nothing else is observable when the answer is usable,
    and the result is then the one computed from the answer; otherwise
    the error caught is logged once, after the call. *)
Theorem validateConcepts_calls_AI_once extractedTerms codeContext :
  extractedTerms ≠ [] →
  ∃ rest,
    trace (validateConcepts extractedTerms codeContext)
      = reply_user (prompt extractedTerms codeContext) :: rest
    ∧ (∀ content, reply_user content ∉ rest)
    ∧ match completion (attempt extractedTerms codeContext) with
      | Normal r =>
          rest = [] ∧ completion (validateConcepts extractedTerms codeContext) = Normal r
      | Throw e =>
          rest = [console_error [LStr "Error validating concepts with AI:"; LExn e]]
      end.
Proof.
  intros Hne. pose proof (attempt_trace extractedTerms codeContext) as Ht.
  unfold AiValidator.validateConcepts.
  destruct extractedTerms as [|x xs]; [done|]. simpl length. simpl Nat.eqb.
  destruct (attempt (x :: xs) codeContext) as [t [r|e]]; simpl in Ht; subst t.
  - exists []. split; [done|]. split; [|done]. intros content H. not_in_trace H.
  - rewrite try_catch_Throw. eexists. split; [reflexivity|].
    split; [|done]. intros content H. not_in_trace H.
Qed.

End ValidatorVerdicts.

Lemma validateConcepts_splits_answer_witness :
  ["Invoice"; "loop"] ≠ []
  ∧ AiValidator.validateConcepts Examples.ai_answer Examples.one_block
      Examples.parsed_verdicts ["Invoice"; "loop"] "class Invoice {}"
    = ([Effects.reply_user (AiValidator.prompt ["Invoice"; "loop"] "class Invoice {}")],
       Js.Normal
         {| AiValidator.validConcepts := Verdicts.valid_terms Examples.verdicts;
            AiValidator.invalidConcepts := Verdicts.invalid_terms Examples.verdicts |})
  ∧ Verdicts.valid_terms Examples.verdicts = [Js.Str "Invoice"].
Proof.
  assert (["Invoice"; "loop"] ≠ []) as Hne by discriminate.
  assert (Verdicts.answered Examples.ai_answer Examples.one_block Examples.parsed_verdicts
            ["Invoice"; "loop"] "class Invoice {}" Examples.verdicts) as Ha.
  { eexists _, _, _, _. repeat split; reflexivity. }
  assert (Forall Verdicts.readable Examples.verdicts) as Hr.
  { repeat constructor; discriminate. }
  exact (conj Hne (conj (proj1 (validateConcepts_splits_answer Examples.ai_answer
    Examples.one_block Examples.parsed_verdicts _ _ _ Hne Ha Hr)) eq_refl)).
Defined.

Lemma validateConcepts_null_entry_discards_answer_witness :
  Js.Null ∈ [Js.Obj [("term", Js.Str "loop"); ("isValid", Js.Bool false)]; Js.Null]
  ∧ Effects.completion
      (AiValidator.validateConcepts Examples.ai_answer Examples.one_block
         Examples.parsed_with_null ["Invoice"; "loop"] "class Invoice {}")
    = Js.Normal {| AiValidator.validConcepts := [Js.Str "Invoice"; Js.Str "loop"];
                   AiValidator.invalidConcepts := [] |}.
Proof.
  assert (["Invoice"; "loop"] ≠ []) as Hne by discriminate.
  assert (Js.Null ∈ [Js.Obj [("term", Js.Str "loop"); ("isValid", Js.Bool false)]; Js.Null])
    as Hin by apply list_elem_of_further, list_elem_of_here.
  assert (Verdicts.answered Examples.ai_answer Examples.one_block Examples.parsed_with_null
            ["Invoice"; "loop"] "class Invoice {}"
            [Js.Obj [("term", Js.Str "loop"); ("isValid", Js.Bool false)]; Js.Null]) as Ha.
  { eexists _, _, _, _. repeat split; reflexivity. }
  exact (conj Hin (validateConcepts_null_entry_discards_answer Examples.ai_answer
    Examples.one_block Examples.parsed_with_null _ _ _ Hne Ha Hin)).
Defined.

Lemma validateConcepts_calls_AI_once_witness :
  ["Invoice"] ≠ []
  ∧ ∃ rest,
      Effects.trace
        (AiValidator.validateConcepts Examples.ai_answer Examples.one_block
           Examples.parser_rejects ["Invoice"] "class Invoice {}")
      = Effects.reply_user (AiValidator.prompt ["Invoice"] "class Invoice {}") :: rest
      ∧ ∀ content, Effects.reply_user content ∉ rest.
Proof.
  assert (["Invoice"] ≠ []) as Hne by discriminate.
  destruct (validateConcepts_calls_AI_once Examples.ai_answer Examples.one_block
              Examples.parser_rejects ["Invoice"] "class Invoice {}" Hne)
    as (rest & Ht & Hno & _).
  exact (conj Hne (ex_intro _ rest (conj Ht Hno))).
Defined.

(** ** The MCP server wrapper: what the calls add up to *)

Section ServerLogProperties.
Import Js MCPServer ServerLog.

Ltac run_method :=
  unfold serveHttp, serveStdio, destroy, listen, ensureDestroyed, ensureExpressApp,
    ensureMcpHttpTransportSessions, ensureMcpStdioTransport,
    set_expressApp, set_mcpHttpTransportSessions, set_managedHttpServer,
    set_mcpStdioTransport, set_isDestroyed, installHooks,
    read, write, emit, fresh, throw, mbind, mret, M_bind, M_ret;
  simpl.

(** The state after [serveHttp], when the flag is set. *)
Lemma serveHttp_effect options s :
  isDestroyed (this s) = true →
  let app := default (next_ref s) (expressApp (this s)) in
  let server := match expressApp (this s) with
                | None => S (next_ref s) | Some _ => next_ref s end in
  let prepared :=
    events s
      ++ match expressApp (this s) with
         | None => [express_new app; app_use_json app] | Some _ => [] end
      ++ [app_post app "/mcp"; app_get app "/mcp"; app_delete app "/mcp"]
      ++ match managedHttpServer (this s) with
         | Some old => [http_server_close old] | None => [] end in
  serveHttp options s =
    if valid_port (port options) then
      (Normal tt,
       {| this := {| impl := impl (this s);
                     mcpStdioTransport := mcpStdioTransport (this s);
                     mcpHttpTransportSessions :=
                       Some (default ∅ (mcpHttpTransportSessions (this s)));
                     managedHttpServer := Some server;
                     expressApp := Some app;
                     isDestroyed := true |};
          events := prepared
            ++ [app_listen app (port options) (given_hostname options) server];
          next_ref := S server |})
    else
      (Throw (RangeError "options.port should be >= 0 and < 65536"),
       {| this := {| impl := impl (this s);
                     mcpStdioTransport := mcpStdioTransport (this s);
                     mcpHttpTransportSessions :=
                       Some (default ∅ (mcpHttpTransportSessions (this s)));
                     managedHttpServer := None;
                     expressApp := Some app;
                     isDestroyed := true |};
          events := prepared;
          next_ref := server |}).
Proof.
  destruct s as [[i st ss ms ea d] ev nr]. simpl. intros ->. run_method.
  destruct ea as [app|], ss as [sessions|], ms as [old|],
    (valid_port (port options)); simpl;
    rewrite <- ?app_assoc; reflexivity.
Qed.

(** The state after [serveStdio], when the flag is set. *)
Lemma serveStdio_effect s :
  isDestroyed (this s) = true →
  let t := default (next_ref s) (mcpStdioTransport (this s)) in
  serveStdio s =
    (Normal tt,
     {| this := {| impl := impl (this s);
                   mcpStdioTransport := Some t;
                   mcpHttpTransportSessions := mcpHttpTransportSessions (this s);
                   managedHttpServer := managedHttpServer (this s);
                   expressApp := expressApp (this s);
                   isDestroyed := true |};
        events := events s
          ++ match mcpStdioTransport (this s) with
             | None => [McpStdioTransport_new t] | Some _ => [] end
          ++ [McpServer_connect t];
        next_ref := match mcpStdioTransport (this s) with
                    | None => S (next_ref s) | Some _ => next_ref s end |}).
Proof.
  destruct s as [[i st ss ms ea d] ev nr]. simpl. intros ->. run_method.
  destruct st as [t|]; simpl; rewrite <- ?app_assoc; reflexivity.
Qed.

Lemma new_MCPServerImpl_consistent i : consistent (new_MCPServerImpl i).
Proof. constructor; simpl; try done; repeat constructor. Qed.

Lemma serveHttp_consistent options s :
  consistent s → consistent (serveHttp options s).2.
Proof.
  intros [Hf Hsrv Hk Happ Hst Hss Hp Hg Hd].
  rewrite serveHttp_effect by done.
  destruct s as [[i st ss ms ea d] ev nr]. simpl in *. subst d.
  assert (∀ (f : Event → option (Ref * string)) app,
            Forall (λ r, ea = Some r.1 ∧ r.2 = "/mcp") (omap f ev) →
            Forall (λ r, Some (default app ea) = Some r.1 ∧ r.2 = "/mcp") (omap f ev))
    as Hsame.
  { intros f app H. eapply Forall_impl; [exact H|]. intros r [-> ?]. done. }
  destruct (valid_port (port options)); constructor; simpl.
  all: try done.
  all: destruct ea as [app|], ms as [old|]; simpl; rewrite !omap_app; simpl;
    rewrite ?app_nil_r.
  all: try (by rewrite ?Hsrv, ?Happ, <- ?app_assoc).
  all: try (apply Forall_app; split;
            [first [by apply (Hsame registered_post nr)
                   |by apply (Hsame registered_get nr)
                   |by apply (Hsame registered_delete nr)
                   |idtac]
            |by repeat constructor; simpl; lia]).
  all: try ((eapply Forall_impl; [exact Hk|]); simpl; intros; lia).
  all: rewrite Hsrv; simpl; by rewrite ?app_nil_r.
Qed.

Lemma serveStdio_consistent s : consistent s → consistent (serveStdio s).2.
Proof.
  intros [Hf Hsrv Hk Happ Hst Hss Hp Hg Hd].
  rewrite serveStdio_effect by done.
  destruct s as [[i st ss ms ea d] ev nr]. simpl in *. subst d.
  constructor; simpl.
  - done.
  - destruct st; simpl; rewrite !omap_app; simpl; by rewrite ?app_nil_r.
  - destruct st; simpl; rewrite !omap_app; simpl; rewrite ?app_nil_r; [done|].
    eapply Forall_impl; [exact Hk|]. simpl. intros. lia.
  - destruct st; simpl; rewrite !omap_app; simpl; by rewrite ?app_nil_r.
  - destruct st; simpl; rewrite !omap_app; simpl; by rewrite ?app_nil_r, Hst.
  - destruct st as [t|]; simpl; rewrite !omap_app; simpl; rewrite ?app_nil_r;
      (apply Forall_app; split; [|by repeat constructor]); [done|].
    eapply Forall_impl; [exact Hss|]. by intros.
  - destruct st; simpl; rewrite !omap_app; simpl; by rewrite ?app_nil_r.
  - destruct st; simpl; rewrite !omap_app; simpl; by rewrite ?app_nil_r.
  - destruct st; simpl; rewrite !omap_app; simpl; by rewrite ?app_nil_r.
Qed.

Lemma invoke_consistent c s : consistent s → consistent (invoke c s).2.
Proof.
  intros H. destruct c as [options| |]; simpl.
  - by apply serveHttp_consistent.
  - by apply serveStdio_consistent.
  - rewrite destroy_returns_at_once by apply H. done.
Qed.

Lemma invoke_all_consistent cs s : consistent s → consistent (invoke_all cs s).
Proof.
  revert s. induction cs as [|c cs IH]; intros s H; simpl; [done|].
  by apply IH, invoke_consistent.
Qed.

Lemma invoke_started_NoDup c s :
  consistent s →
  NoDup (omap started_server (events s)) →
  NoDup (omap started_server (events (invoke c s).2)).
Proof.
  intros Hc Hnd. destruct c as [options| |]; simpl.
  - rewrite serveHttp_effect by apply Hc. simpl.
    pose proof (servers_known s Hc) as Hk.
    assert (∀ n, next_ref s ≤ n → n ∉ omap started_server (events s)) as Hfresh.
    { intros n Hn Hin. rewrite Forall_forall in Hk. apply Hk in Hin. lia. }
    destruct (valid_port (port options)), (expressApp (this s)),
      (managedHttpServer (this s)); simpl;
      rewrite !omap_app; simpl; rewrite ?app_nil_r; try done;
      (apply NoDup_app; split; [done|]);
      (split; [|apply NoDup_singleton]);
      intros x Hx Hx'; apply list_elem_of_singleton in Hx'; subst x;
      (eapply Hfresh; [|exact Hx]); lia.
  - rewrite serveStdio_effect by apply Hc. simpl.
    destruct (mcpStdioTransport (this s)); simpl; rewrite !omap_app; simpl;
      by rewrite ?app_nil_r.
  - rewrite destroy_returns_at_once by apply Hc. done.
Qed.

Lemma invoke_all_started_NoDup cs s :
  consistent s →
  NoDup (omap started_server (events s)) →
  NoDup (omap started_server (events (invoke_all cs s))).
Proof.
  revert s. induction cs as [|c cs IH]; intros s Hc Hnd; simpl; [done|].
  apply IH; [by apply invoke_consistent|by apply invoke_started_NoDup].
Qed.

Lemma invoke_server_ops c s :
  consistent s →
  omap server_op (events s)
    = concat (life <$> omap closed_server (events s))
      ++ (Started <$> option_list (managedHttpServer (this s))) →
  omap server_op (events (invoke c s).2)
    = concat (life <$> omap closed_server (events (invoke c s).2))
      ++ (Started <$> option_list (managedHttpServer (this (invoke c s).2))).
Proof.
  intros Hc Hops. destruct c as [options| |]; simpl.
  - rewrite serveHttp_effect by apply Hc. simpl.
    destruct (valid_port (port options)), (expressApp (this s)),
      (managedHttpServer (this s)); simpl in *;
      rewrite !omap_app; simpl; rewrite ?app_nil_r, Hops;
      rewrite ?fmap_app, ?concat_app; simpl;
      rewrite ?app_nil_r, <- ?app_assoc; done.
  - rewrite serveStdio_effect by apply Hc. simpl.
    destruct (mcpStdioTransport (this s)); simpl; rewrite !omap_app; simpl;
      by rewrite ?app_nil_r.
  - rewrite destroy_returns_at_once by apply Hc. done.
Qed.

Lemma invoke_all_server_ops cs s :
  consistent s →
  omap server_op (events s)
    = concat (life <$> omap closed_server (events s))
      ++ (Started <$> option_list (managedHttpServer (this s))) →
  omap server_op (events (invoke_all cs s))
    = concat (life <$> omap closed_server (events (invoke_all cs s)))
      ++ (Started <$> option_list (managedHttpServer (this (invoke_all cs s)))).
Proof.
  revert s. induction cs as [|c cs IH]; intros s Hc Hops; simpl; [done|].
  apply IH; [by apply invoke_consistent|by apply invoke_server_ops].
Qed.

(** X9: at most one HTTP server is open at any time, and the previous
    server is closed before the next one is started.  After any sequence
    of calls, the calls that start and close servers read, in the order
    they were made: start and close of the first server, start and close
    of the second, and so on, ending with the start of the current
    [managedHttpServer] if there is one.  So the servers started are the
    closed ones followed by the current one, no server is started twice,
    and the current one is not closed. *)
Theorem every_started_server_but_the_current_is_closed
    (i : McpImplementation) (calls : list MethodCall) :
  omap server_op (events (invoke_all calls (new_MCPServerImpl i)))
    = concat (life <$> omap closed_server (events (invoke_all calls (new_MCPServerImpl i))))
      ++ (Started <$> option_list
            (managedHttpServer (this (invoke_all calls (new_MCPServerImpl i)))))
  ∧ omap started_server (events (invoke_all calls (new_MCPServerImpl i)))
    = omap closed_server (events (invoke_all calls (new_MCPServerImpl i)))
      ++ option_list (managedHttpServer (this (invoke_all calls (new_MCPServerImpl i))))
  ∧ NoDup (omap started_server (events (invoke_all calls (new_MCPServerImpl i))))
  ∧ (∀ server,
       managedHttpServer (this (invoke_all calls (new_MCPServerImpl i))) = Some server →
       server ∉ omap closed_server (events (invoke_all calls (new_MCPServerImpl i)))).
Proof.
  pose proof (invoke_all_consistent calls _ (new_MCPServerImpl_consistent i)) as Hc.
  pose proof (invoke_all_started_NoDup calls _ (new_MCPServerImpl_consistent i)) as Hnd.
  specialize (Hnd ltac:(simpl; apply NoDup_nil_2)).
  pose proof (servers_accounted _ Hc) as Hs.
  split; [by apply invoke_all_server_ops; [apply new_MCPServerImpl_consistent|]|].
  split; [exact Hs|]. split; [exact Hnd|].
  intros server Hm Hin. rewrite Hs, Hm in Hnd. simpl in Hnd.
  apply NoDup_app in Hnd as (_ & Hdisj & _).
  apply (Hdisj server Hin). apply list_elem_of_here.
Qed.

Lemma serveHttp_calls_cons c cs :
  serveHttp_calls (c :: cs) = (if is_serveHttp c then 1 else 0) + serveHttp_calls cs.
Proof.
  unfold serveHttp_calls. rewrite filter_cons. destruct (is_serveHttp c).
  - by rewrite decide_True.
  - by rewrite decide_False by (by intros []).
Qed.

Lemma serveStdio_calls_cons c cs :
  serveStdio_calls (c :: cs) = (if is_serveStdio c then 1 else 0) + serveStdio_calls cs.
Proof.
  unfold serveStdio_calls. rewrite filter_cons. destruct (is_serveStdio c).
  - by rewrite decide_True.
  - by rewrite decide_False by (by intros []).
Qed.

Lemma invoke_counts c s :
  consistent s →
  length (omap registered_post (events (invoke c s).2))
    = length (omap registered_post (events s)) + (if is_serveHttp c then 1 else 0)
  ∧ length (omap registered_get (events (invoke c s).2))
    = length (omap registered_get (events s)) + (if is_serveHttp c then 1 else 0)
  ∧ length (omap registered_delete (events (invoke c s).2))
    = length (omap registered_delete (events s)) + (if is_serveHttp c then 1 else 0)
  ∧ length (omap connected (events (invoke c s).2))
    = length (omap connected (events s)) + (if is_serveStdio c then 1 else 0).
Proof.
  intros Hc. destruct c as [options| |]; simpl.
  - rewrite serveHttp_effect by apply Hc. simpl.
    destruct (valid_port (port options)), (expressApp (this s)),
      (managedHttpServer (this s)); simpl;
      rewrite !omap_app; simpl; rewrite ?app_nil_r, ?length_app; simpl;
      repeat split; lia.
  - rewrite serveStdio_effect by apply Hc. simpl.
    destruct (mcpStdioTransport (this s)); simpl;
      rewrite !omap_app; simpl; rewrite ?app_nil_r, ?length_app; simpl;
      repeat split; lia.
  - rewrite destroy_returns_at_once by apply Hc. simpl. repeat split; lia.
Qed.

Lemma invoke_all_counts cs s :
  consistent s →
  length (omap registered_post (events (invoke_all cs s)))
    = length (omap registered_post (events s)) + serveHttp_calls cs
  ∧ length (omap registered_get (events (invoke_all cs s)))
    = length (omap registered_get (events s)) + serveHttp_calls cs
  ∧ length (omap registered_delete (events (invoke_all cs s)))
    = length (omap registered_delete (events s)) + serveHttp_calls cs
  ∧ length (omap connected (events (invoke_all cs s)))
    = length (omap connected (events s)) + serveStdio_calls cs.
Proof.
  revert s. induction cs as [|c cs IH]; intros s Hc.
  - simpl. unfold serveHttp_calls, serveStdio_calls. simpl. repeat split; lia.
  - simpl invoke_all.
    destruct (IH _ (invoke_consistent c s Hc)) as (H1 & H2 & H3 & H4).
    destruct (invoke_counts c s Hc) as (K1 & K2 & K3 & K4).
    rewrite H1, H2, H3, H4, K1, K2, K3, K4, serveHttp_calls_cons, serveStdio_calls_cons.
    repeat split; lia.
Qed.

(** X10: every call of [serveHttp] registers the POST, GET and DELETE
    handlers of /mcp again.  After any sequence of calls each of the three
    handlers is registered as many times as [serveHttp] was called, always
    on the one express application, which is created at most once. *)
Theorem serveHttp_registers_routes_on_every_call
    (i : McpImplementation) (calls : list MethodCall) :
  length (omap registered_post (events (invoke_all calls (new_MCPServerImpl i))))
    = serveHttp_calls calls
  ∧ length (omap registered_get (events (invoke_all calls (new_MCPServerImpl i))))
    = serveHttp_calls calls
  ∧ length (omap registered_delete (events (invoke_all calls (new_MCPServerImpl i))))
    = serveHttp_calls calls
  ∧ omap created_app (events (invoke_all calls (new_MCPServerImpl i)))
    = option_list (expressApp (this (invoke_all calls (new_MCPServerImpl i))))
  ∧ Forall (λ r, expressApp (this (invoke_all calls (new_MCPServerImpl i))) = Some r.1
                 ∧ r.2 = "/mcp")
      (omap registered_post (events (invoke_all calls (new_MCPServerImpl i)))
       ++ omap registered_get (events (invoke_all calls (new_MCPServerImpl i)))
       ++ omap registered_delete (events (invoke_all calls (new_MCPServerImpl i)))).
Proof.
  pose proof (invoke_all_consistent calls _ (new_MCPServerImpl_consistent i)) as Hc.
  destruct (invoke_all_counts calls _ (new_MCPServerImpl_consistent i))
    as (H1 & H2 & H3 & _).
  simpl in H1, H2, H3.
  split; [exact H1|]. split; [exact H2|]. split; [exact H3|].
  split; [apply Hc|].
  rewrite !Forall_app. split; [apply Hc|]. split; apply Hc.
Qed.

(** X11: the stdio transport is created once and connected on every call
    of [serveStdio].  After any sequence of calls [connect] was called as
    many times as [serveStdio], each time with the transport held in
    [mcpStdioTransport], and at most one stdio transport was created. *)
Theorem serveStdio_connects_the_one_transport_again
    (i : McpImplementation) (calls : list MethodCall) :
  length (omap connected (events (invoke_all calls (new_MCPServerImpl i))))
    = serveStdio_calls calls
  ∧ Forall (λ t, mcpStdioTransport (this (invoke_all calls (new_MCPServerImpl i))) = Some t)
      (omap connected (events (invoke_all calls (new_MCPServerImpl i))))
  ∧ omap created_stdio (events (invoke_all calls (new_MCPServerImpl i)))
    = option_list (mcpStdioTransport (this (invoke_all calls (new_MCPServerImpl i)))).
Proof.
  pose proof (invoke_all_consistent calls _ (new_MCPServerImpl_consistent i)) as Hc.
  destruct (invoke_all_counts calls _ (new_MCPServerImpl_consistent i))
    as (_ & _ & _ & H4).
  simpl in H4. split; [exact H4|]. split; apply Hc.
Qed.

(** X12: [destroy] is idempotent on every state, reachable or not.  It
    always completes normally with the flag set, a second call changes
    nothing, and it never clears [managedHttpServer]; from a state whose
    flag is cleared it closes the server instance before the managed HTTP
    server and the stdio transport and clears the application, the
    session table and the transport. *)
Theorem destroy_idempotent (s : State) :
  (destroy s).1 = Normal tt
  ∧ isDestroyed (this (destroy s).2) = true
  ∧ destroy (destroy s).2 = (Normal tt, (destroy s).2)
  ∧ managedHttpServer (this (destroy s).2) = managedHttpServer (this s)
  ∧ (isDestroyed (this s) = false →
       expressApp (this (destroy s).2) = None
       ∧ mcpHttpTransportSessions (this (destroy s).2) = None
       ∧ mcpStdioTransport (this (destroy s).2) = None
       ∧ events (destroy s).2
         = events s ++ [McpServer_close]
           ++ (http_server_close <$> option_list (managedHttpServer (this s)))
           ++ (transport_close <$> option_list (mcpStdioTransport (this s)))).
Proof.
  destruct s as [[i st ss ms ea d] ev nr]. run_method.
  destruct d, st as [t|], ms as [server|]; simpl;
    (split; [done|]); (split; [done|]); (split; [done|]); (split; [done|]);
    intros H; try discriminate H; repeat split;
    rewrite <- ?app_assoc; reflexivity.
Qed.

Lemma last_of_log (ev A R C : list Event) (x : Event) :
  last (ev ++ A ++ R ++ C ++ [x]) = Some x.
Proof. by rewrite !app_assoc, last_snoc. Qed.

Lemma last_of_closing (ev A R : list Event) (x : Event) :
  last (ev ++ A ++ R ++ [x]) = Some x.
Proof. by rewrite !app_assoc, last_snoc. Qed.

(** X13: what a call of [serveHttp] leaves behind in a reachable state.
    The application and the session table exist afterwards in any case.
    For a port that [listen] accepts the call completes normally, the
    last call made is [listen] on that application with the requested
    port, the server it returns is the managed one, and the host name is
    passed on only when it is not empty.  For a port outside 0..65535
    the call throws the RangeError of [listen]: no server is started, the
    previous managed server, if any, was closed by the last call made,
    and no managed server is left. *)
Theorem serveHttp_ends_listening
    (i : McpImplementation) (calls : list MethodCall) (options : HttpServeOptions) :
  let s := invoke_all calls (new_MCPServerImpl i) in
  ∃ app,
    expressApp (this (serveHttp options s).2) = Some app
    ∧ is_Some (mcpHttpTransportSessions (this (serveHttp options s).2))
    ∧ ((0 ≤ port options ≤ 65535)%Z →
         (serveHttp options s).1 = Normal tt
         ∧ ∃ server,
             managedHttpServer (this (serveHttp options s).2) = Some server
             ∧ last (events (serveHttp options s).2)
               = Some (app_listen app (port options)
                         (match hostname options with
                          | Some h => if decide (h = EmptyString) then None else Some h
                          | None => None
                          end) server))
    ∧ (¬ (0 ≤ port options ≤ 65535)%Z →
         (∃ message, (serveHttp options s).1 = Throw (RangeError message))
         ∧ managedHttpServer (this (serveHttp options s).2) = None
         ∧ omap started_server (events (serveHttp options s).2)
           = omap started_server (events s)
         ∧ (∀ old, managedHttpServer (this s) = Some old →
              last (events (serveHttp options s).2) = Some (http_server_close old))).
Proof.
  intros s.
  pose proof (invoke_all_consistent calls _ (new_MCPServerImpl_consistent i)) as Hc.
  fold s in Hc. rewrite serveHttp_effect by apply Hc.
  pose proof (valid_port_spec (port options)) as Hv.
  destruct (valid_port (port options));
    cbn [fst snd events this expressApp managedHttpServer mcpHttpTransportSessions].
  - eexists. split; [done|]. split; [by eexists|]. split.
    + intros _. split; [done|]. eexists. split; [done|].
      rewrite <- !app_assoc, last_of_log. do 2 f_equal.
      unfold given_hostname. destruct (hostname options) as [h|]; [|done].
      destruct (String.eqb_spec h EmptyString); by case_decide.
    + intros Hn. destruct Hn. by apply Hv.
  - eexists. split; [done|]. split; [by eexists|]. split.
    + intros Hp. apply Hv in Hp. discriminate.
    + intros _. split; [by eexists|]. split; [done|]. split.
      * destruct (expressApp (this s)), (managedHttpServer (this s)); simpl;
          rewrite !omap_app; simpl; by rewrite ?app_nil_r.
      * intros old ->. apply last_of_closing.
Qed.

End ServerLogProperties.

(** ** The route handlers of the MCP server wrapper *)

Section RouteProperties.
Import Js McpRoutes.

Variable inherited : string → bool.
Variable connect_completes : Ref → Completion unit.
Variable handleRequest_completes : Ref → Request → Completion unit.
Variable session_initialized : Ref → Request → option string.

Local Abbreviation post_mcp :=
  (post_mcp inherited connect_completes handleRequest_completes session_initialized).
Local Abbreviation handleSessionRequest :=
  (handleSessionRequest inherited handleRequest_completes).

Ltac run_handler :=
  unfold McpRoutes.post_mcp, McpRoutes.handleSessionRequest, handleRequest,
    handleRequest_new, bad_request,
    lookup_session, onsessioninitialized, onclose, set_sessions, after,
    world, emit, fresh, call, throw, mbind, mret, H_bind, H_ret;
  simpl.

Lemma truthy_id_Some sid : sid ≠ EmptyString → truthy_id (Some sid) = Some sid.
Proof. intros H. simpl. by destruct (String.eqb_spec sid EmptyString). Qed.

Lemma stored_session_dispatch w sid t init :
  sid ≠ EmptyString →
  sessions w !! sid = Some t →
  let req := {| mcp_session_id := Some sid; is_initialize := init |} in
  post_mcp req w
    = (handleRequest_completes t req, after w [transport_handleRequest t req true])
  ∧ handleSessionRequest req w
    = (handleRequest_completes t req, after w [transport_handleRequest t req false]).
Proof.
  intros Hne Hs req. run_handler.
  destruct (String.eqb_spec sid EmptyString); [done|]. rewrite Hs. simpl.
  by destruct (handleRequest_completes t req) as [[]|e].
Qed.

Lemma missing_session_reject w sid init :
  sid ≠ EmptyString →
  sessions w !! sid = None →
  inherited sid = false →
  let req := {| mcp_session_id := Some sid; is_initialize := init |} in
  post_mcp req w
    = (Normal tt,
       after w [res_status_json 400 (-32000) "Bad Request: No valid session ID provided"])
  ∧ handleSessionRequest req w
    = (Normal tt, after w [res_status_send 400 "Invalid or missing session ID"]).
Proof.
  intros Hne Hs Hi req. run_handler.
  destruct (String.eqb_spec sid EmptyString); [done|]. by rewrite Hs, Hi.
Qed.

(** X14: a request that carries the id of a stored session goes to the
    transport stored under it.  POST, GET and DELETE call [handleRequest]
    on that transport (POST with the body), complete as that call does,
    create no transport, send no answer of their own and leave the session
    table alone, also when the body of the POST is an initialize request. *)
Theorem known_session_is_dispatched w sid t init :
  sid ≠ EmptyString →
  sessions w !! sid = Some t →
  let req := {| mcp_session_id := Some sid; is_initialize := init |} in
  post_mcp req w
    = (handleRequest_completes t req, after w [transport_handleRequest t req true])
  ∧ handleSessionRequest req w
    = (handleRequest_completes t req, after w [transport_handleRequest t req false]).
Proof. apply stored_session_dispatch. Qed.

(** X15: a request that carries an unknown session id is answered with
    status 400 and nothing else happens: no transport is created or
    called and the table is unchanged.  For POST this holds even when the
    body is an initialize request. *)
Theorem unknown_session_is_rejected w sid init :
  sid ≠ EmptyString →
  sessions w !! sid = None →
  inherited sid = false →
  let req := {| mcp_session_id := Some sid; is_initialize := init |} in
  post_mcp req w
    = (Normal tt,
       after w [res_status_json 400 (-32000) "Bad Request: No valid session ID provided"])
  ∧ handleSessionRequest req w
    = (Normal tt, after w [res_status_send 400 "Invalid or missing session ID"]).
Proof. apply missing_session_reject. Qed.

(** X16: a request without a session id (no header, or an empty one).
    GET and DELETE are answered with 400.  A POST that is not an
    initialize request is answered with 400; an initialize request makes
    a new transport with a fresh reference, connects the server to it and
    only then lets it handle the request; when [connect] rejects, the
    handler rejects with that error and the request is not handled.  The
    handler does not enter the transport in the session table, but the
    [onsessioninitialized] closure it has given to the transport does:
    when the transport initializes a session while it handles the
    request, the table holds the new id for the new transport by the time
    the handler completes, and a later request with that id reaches that
    transport. *)
Theorem request_without_session_id w req :
  truthy_id (mcp_session_id req) = None →
  handleSessionRequest req w
    = (Normal tt, after w [res_status_send 400 "Invalid or missing session ID"])
  ∧ (is_initialize req = false →
       post_mcp req w
         = (Normal tt,
            after w [res_status_json 400 (-32000)
                       "Bad Request: No valid session ID provided"]))
  ∧ (is_initialize req = true →
       post_mcp req w
         = match connect_completes (next_ref w) with
           | Normal _ =>
               (handleRequest_completes (next_ref w) req,
                {| sessions :=
                     match session_initialized (next_ref w) req with
                     | Some sessionId => <[sessionId := next_ref w]> (sessions w)
                     | None => sessions w
                     end;
                   events := events w
                     ++ [McpHttpTransport_new (next_ref w);
                         McpServer_connect (next_ref w);
                         transport_handleRequest (next_ref w) req true];
                   next_ref := S (next_ref w) |})
           | Throw e =>
               (Throw e,
                {| sessions := sessions w;
                   events := events w
                     ++ [McpHttpTransport_new (next_ref w);
                         McpServer_connect (next_ref w)];
                   next_ref := S (next_ref w) |})
           end)
  ∧ (∀ sessionId later,
       is_initialize req = true →
       connect_completes (next_ref w) = Normal tt →
       session_initialized (next_ref w) req = Some sessionId →
       sessionId ≠ EmptyString →
       mcp_session_id later = Some sessionId →
       post_mcp later (post_mcp req w).2
         = (handleRequest_completes (next_ref w) later,
            after (post_mcp req w).2 [transport_handleRequest (next_ref w) later true])
       ∧ handleSessionRequest later (post_mcp req w).2
         = (handleRequest_completes (next_ref w) later,
            after (post_mcp req w).2 [transport_handleRequest (next_ref w) later false])).
Proof.
  intros Hid.
  assert (is_initialize req = true →
          post_mcp req w
            = match connect_completes (next_ref w) with
              | Normal _ =>
                  (handleRequest_completes (next_ref w) req,
                   {| sessions :=
                        match session_initialized (next_ref w) req with
                        | Some sessionId => <[sessionId := next_ref w]> (sessions w)
                        | None => sessions w
                        end;
                      events := events w
                        ++ [McpHttpTransport_new (next_ref w);
                            McpServer_connect (next_ref w);
                            transport_handleRequest (next_ref w) req true];
                      next_ref := S (next_ref w) |})
              | Throw e =>
                  (Throw e,
                   {| sessions := sessions w;
                      events := events w
                        ++ [McpHttpTransport_new (next_ref w);
                            McpServer_connect (next_ref w)];
                      next_ref := S (next_ref w) |})
              end) as Hinit.
  { intros Hi. run_handler. rewrite Hid, Hi. simpl.
    destruct (connect_completes (next_ref w)) as [[]|e]; simpl.
    - rewrite <- !app_assoc. simpl.
      destruct (session_initialized (next_ref w) req) as [sessionId|]; simpl;
        by destruct (handleRequest_completes (next_ref w) req) as [[]|e].
    - by rewrite <- !app_assoc. }
  split; [|split; [|split]].
  - run_handler. by rewrite Hid.
  - intros Hi. run_handler. by rewrite Hid, Hi.
  - exact Hinit.
  - intros sessionId later Hi Hconn Hsid Hne Hlater.
    rewrite (Hinit Hi), Hconn, Hsid. simpl.
    destruct later as [header init]. simpl in Hlater. subst header.
    apply stored_session_dispatch; [done|]. simpl. apply lookup_insert_eq.
Qed.

(** X17: the session table follows the callbacks.  Once
    [onsessioninitialized] has run for a transport and an id, requests
    with that id reach that transport; once [onclose] has run for the id,
    they are answered with 400 again; requests with another id are
    looked up as before; and [onclose] of a transport without an id
    changes nothing. *)
Theorem session_table_follows_callbacks w sid t init :
  sid ≠ EmptyString →
  inherited sid = false →
  let req := {| mcp_session_id := Some sid; is_initialize := init |} in
  let opened := (onsessioninitialized t sid w).2 in
  let closed := (onclose (Some sid) opened).2 in
  post_mcp req opened
    = (handleRequest_completes t req, after opened [transport_handleRequest t req true])
  ∧ handleSessionRequest req opened
    = (handleRequest_completes t req, after opened [transport_handleRequest t req false])
  ∧ post_mcp req closed
    = (Normal tt,
       after closed [res_status_json 400 (-32000)
                       "Bad Request: No valid session ID provided"])
  ∧ handleSessionRequest req closed
    = (Normal tt, after closed [res_status_send 400 "Invalid or missing session ID"])
  ∧ (∀ other, other ≠ sid →
       lookup_session inherited opened other = lookup_session inherited w other
       ∧ lookup_session inherited closed other = lookup_session inherited w other)
  ∧ onclose None w = (Normal tt, w)
  ∧ onclose (Some EmptyString) w = (Normal tt, w).
Proof.
  intros Hne Hi req opened closed.
  assert (sessions opened !! sid = Some t) as Ho.
  { subst opened. run_handler. apply lookup_insert_eq. }
  assert (sessions closed !! sid = None) as Hc.
  { subst closed opened. run_handler.
    destruct (String.eqb_spec sid EmptyString); [done|]. simpl. apply lookup_delete_eq. }
  destruct (stored_session_dispatch opened sid t init Hne Ho) as [H1 H2].
  destruct (missing_session_reject closed sid init Hne Hc Hi) as [H3 H4].
  split; [exact H1|]. split; [exact H2|]. split; [exact H3|]. split; [exact H4|].
  split; [|by split].
  intros other Hother. subst closed opened. run_handler.
  destruct (String.eqb_spec sid EmptyString); [done|]. simpl.
  rewrite lookup_delete_ne, !lookup_insert_ne by done. done.
Qed.

(** X18: an id that names a property of [Object.prototype] and is not
    stored in the table is not rejected with 400: the lookup yields the
    inherited value, which is truthy, and calling [handleRequest] on it
    throws a TypeError before any answer is sent. *)
Theorem inherited_name_throws w sid init :
  sid ≠ EmptyString →
  sessions w !! sid = None →
  inherited sid = true →
  let req := {| mcp_session_id := Some sid; is_initialize := init |} in
  post_mcp req w = (Throw (TypeError "transport.handleRequest is not a function"), w)
  ∧ handleSessionRequest req w
    = (Throw (TypeError "transport.handleRequest is not a function"), w).
Proof.
  intros Hne Hs Hi req. run_handler.
  destruct (String.eqb_spec sid EmptyString); [done|]. by rewrite Hs, Hi.
Qed.

End RouteProperties.

Lemma every_started_server_but_the_current_is_closed_witness :
  MCPServer.managedHttpServer
    (MCPServer.this (MCPServer.invoke_all Examples.two_serveHttp
                       (MCPServer.new_MCPServerImpl Examples.ctx))) = Some 3
  ∧ (3 ∉ omap ServerLog.closed_server
           (MCPServer.events (MCPServer.invoke_all Examples.two_serveHttp
                                (MCPServer.new_MCPServerImpl Examples.ctx))))
  ∧ omap ServerLog.server_op
      (MCPServer.events (MCPServer.invoke_all Examples.two_serveHttp
                           (MCPServer.new_MCPServerImpl Examples.ctx)))
    = [ServerLog.Started 1; ServerLog.Closed 1; ServerLog.Started 3].
Proof.
  assert (MCPServer.managedHttpServer
            (MCPServer.this (MCPServer.invoke_all Examples.two_serveHttp
                               (MCPServer.new_MCPServerImpl Examples.ctx))) = Some 3)
    as Hm by (vm_compute; reflexivity).
  assert (omap ServerLog.server_op
            (MCPServer.events (MCPServer.invoke_all Examples.two_serveHttp
                                 (MCPServer.new_MCPServerImpl Examples.ctx)))
          = [ServerLog.Started 1; ServerLog.Closed 1; ServerLog.Started 3])
    as Hops by (vm_compute; reflexivity).
  exact (conj Hm (conj
    (proj2 (proj2 (proj2 (every_started_server_but_the_current_is_closed
                            Examples.ctx Examples.two_serveHttp))) 3 Hm)
    Hops)).
Defined.

Lemma destroy_idempotent_witness :
  MCPServer.isDestroyed (MCPServer.this Examples.running) = false
  ∧ MCPServer.events (MCPServer.destroy Examples.running).2
    = [MCPServer.McpServer_close; MCPServer.http_server_close 1;
       MCPServer.transport_close 2]
  ∧ MCPServer.managedHttpServer (MCPServer.this (MCPServer.destroy Examples.running).2)
    = Some 1.
Proof.
  assert (MCPServer.isDestroyed (MCPServer.this Examples.running) = false) as Hf
    by reflexivity.
  destruct (destroy_idempotent Examples.running) as (_ & _ & _ & Hm & Hrun).
  destruct (Hrun Hf) as (_ & _ & _ & Hev).
  exact (conj Hf (conj Hev Hm)).
Defined.

Lemma known_session_is_dispatched_witness :
  "7f3a" ≠ EmptyString
  ∧ McpRoutes.sessions Examples.one_session !! "7f3a" = Some 5
  ∧ McpRoutes.post_mcp Examples.object_prototype Examples.accepts_connect Examples.handles
      Examples.issues_session
      (McpRoutes.Build_Request (Some "7f3a") true) Examples.one_session
    = (Js.Normal tt,
       McpRoutes.after Examples.one_session
         [McpRoutes.transport_handleRequest 5
            (McpRoutes.Build_Request (Some "7f3a") true) true]).
Proof.
  assert ("7f3a" ≠ EmptyString) as Hne by discriminate.
  assert (McpRoutes.sessions Examples.one_session !! "7f3a" = Some 5) as Hs
    by (vm_compute; reflexivity).
  exact (conj Hne (conj Hs
    (proj1 (known_session_is_dispatched Examples.object_prototype Examples.accepts_connect
              Examples.handles Examples.issues_session Examples.one_session "7f3a" 5 true Hne Hs)))).
Defined.

Lemma unknown_session_is_rejected_witness :
  "0000" ≠ EmptyString
  ∧ McpRoutes.sessions Examples.one_session !! "0000" = None
  ∧ Examples.object_prototype "0000" = false
  ∧ McpRoutes.post_mcp Examples.object_prototype Examples.accepts_connect Examples.handles
      Examples.issues_session
      (McpRoutes.Build_Request (Some "0000") true) Examples.one_session
    = (Js.Normal tt,
       McpRoutes.after Examples.one_session
         [McpRoutes.res_status_json 400 (-32000)
            "Bad Request: No valid session ID provided"]).
Proof.
  assert ("0000" ≠ EmptyString) as Hne by discriminate.
  assert (McpRoutes.sessions Examples.one_session !! "0000" = None) as Hs
    by (vm_compute; reflexivity).
  assert (Examples.object_prototype "0000" = false) as Hi by (vm_compute; reflexivity).
  exact (conj Hne (conj Hs (conj Hi
    (proj1 (unknown_session_is_rejected Examples.object_prototype Examples.accepts_connect
              Examples.handles Examples.issues_session Examples.one_session "0000" true Hne Hs Hi))))).
Defined.

Lemma request_without_session_id_witness :
  McpRoutes.truthy_id (Some EmptyString) = None
  ∧ McpRoutes.post_mcp Examples.object_prototype Examples.accepts_connect Examples.handles
      Examples.issues_session
      (McpRoutes.Build_Request (Some EmptyString) true) Examples.one_session
    = (Js.Normal tt,
       McpRoutes.Build_World (<["5b1c" := 6]> (McpRoutes.sessions Examples.one_session))
         [McpRoutes.McpHttpTransport_new 6; McpRoutes.McpServer_connect 6;
          McpRoutes.transport_handleRequest 6
            (McpRoutes.Build_Request (Some EmptyString) true) true] 7)
  ∧ "5b1c" ≠ EmptyString
  ∧ (McpRoutes.handleSessionRequest Examples.object_prototype Examples.handles
       (McpRoutes.Build_Request (Some "5b1c") false)
       (McpRoutes.post_mcp Examples.object_prototype Examples.accepts_connect
          Examples.handles Examples.issues_session
          (McpRoutes.Build_Request (Some EmptyString) true) Examples.one_session).2).1
    = Js.Normal tt.
Proof.
  assert ("5b1c" ≠ EmptyString) as Hne by discriminate.
  destruct (request_without_session_id Examples.object_prototype
              Examples.accepts_connect Examples.handles Examples.issues_session
              Examples.one_session
              (McpRoutes.Build_Request (Some EmptyString) true) eq_refl)
    as (_ & _ & Hinit & Hlater).
  destruct (Hlater "5b1c" (McpRoutes.Build_Request (Some "5b1c") false)
              eq_refl eq_refl eq_refl Hne eq_refl) as [_ Hget].
  exact (conj eq_refl (conj (Hinit eq_refl) (conj Hne (f_equal fst Hget)))).
Defined.

Lemma session_table_follows_callbacks_witness :
  "9c1e" ≠ EmptyString
  ∧ Examples.object_prototype "9c1e" = false
  ∧ McpRoutes.handleSessionRequest Examples.object_prototype Examples.handles
      (McpRoutes.Build_Request (Some "9c1e") false)
      (McpRoutes.onclose (Some "9c1e")
         (McpRoutes.onsessioninitialized 8 "9c1e" Examples.one_session).2).2
    = (Js.Normal tt,
       McpRoutes.after
         (McpRoutes.onclose (Some "9c1e")
            (McpRoutes.onsessioninitialized 8 "9c1e" Examples.one_session).2).2
         [McpRoutes.res_status_send 400 "Invalid or missing session ID"]).
Proof.
  assert ("9c1e" ≠ EmptyString) as Hne by discriminate.
  assert (Examples.object_prototype "9c1e" = false) as Hi by (vm_compute; reflexivity).
  destruct (session_table_follows_callbacks Examples.object_prototype Examples.accepts_connect
              Examples.handles Examples.issues_session Examples.one_session
              "9c1e" 8 false Hne Hi) as (_ & _ & _ & H4 & _).
  exact (conj Hne (conj Hi H4)).
Defined.

Lemma inherited_name_throws_witness :
  "constructor" ≠ EmptyString
  ∧ McpRoutes.sessions Examples.one_session !! "constructor" = None
  ∧ Examples.object_prototype "constructor" = true
  ∧ McpRoutes.handleSessionRequest Examples.object_prototype Examples.handles
      (McpRoutes.Build_Request (Some "constructor") false) Examples.one_session
    = (Js.Throw (Js.TypeError "transport.handleRequest is not a function"),
       Examples.one_session).
Proof.
  assert ("constructor" ≠ EmptyString) as Hne by discriminate.
  assert (McpRoutes.sessions Examples.one_session !! "constructor" = None) as Hs
    by (vm_compute; reflexivity).
  assert (Examples.object_prototype "constructor" = true) as Hi by (vm_compute; reflexivity).
  exact (conj Hne (conj Hs (conj Hi
    (proj2 (inherited_name_throws Examples.object_prototype Examples.accepts_connect
              Examples.handles Examples.issues_session Examples.one_session "constructor" false Hne Hs Hi))))).
Defined.

Lemma serveHttp_ends_listening_witness :
  ¬ (0 ≤ 70000 ≤ 65535)%Z
  ∧ MCPServer.managedHttpServer
      (MCPServer.this (MCPServer.invoke_all Examples.serve_destroy_serve
                         (MCPServer.new_MCPServerImpl Examples.mcp_impl))) = Some 1
  ∧ MCPServer.managedHttpServer
      (MCPServer.this
         (MCPServer.serveHttp (MCPServer.Build_HttpServeOptions 70000 None)
            (MCPServer.invoke_all Examples.serve_destroy_serve
               (MCPServer.new_MCPServerImpl Examples.mcp_impl))).2) = None
  ∧ last (MCPServer.events
            (MCPServer.serveHttp (MCPServer.Build_HttpServeOptions 70000 None)
               (MCPServer.invoke_all Examples.serve_destroy_serve
                  (MCPServer.new_MCPServerImpl Examples.mcp_impl))).2)
    = Some (MCPServer.http_server_close 1).
Proof.
  assert (¬ (0 ≤ 70000 ≤ 65535)%Z) as Hout by lia.
  assert (MCPServer.managedHttpServer
            (MCPServer.this (MCPServer.invoke_all Examples.serve_destroy_serve
                               (MCPServer.new_MCPServerImpl Examples.mcp_impl))) = Some 1)
    as Hm by (vm_compute; reflexivity).
  destruct (serveHttp_ends_listening Examples.mcp_impl Examples.serve_destroy_serve
              (MCPServer.Build_HttpServeOptions 70000 None))
    as (app & _ & _ & _ & Hbad).
  destruct (Hbad Hout) as (_ & Hnone & _ & Hlast).
  exact (conj Hout (conj Hm (conj Hnone (Hlast 1 Hm)))).
Defined.
